(** * Delegation processing pipeline of the transaction sender

    Shallow embedding of
    [coprocessor/fhevm-engine/transaction-sender/src/ops/delegate_user_decrypt.rs]:
    the send path of one delegation ([send_transaction],
    [non_applicable_delegation]), the readiness classification
    ([tx_check_ready_delegations]), the height wait
    ([wait_last_block_number]), the store queries
    ([delayed_sorted_delegation], [clean_delegation]) and one pass of the
    orchestrator ([execute]).

    The outside world (database, host chain, gateway chain, runtime
    scheduler) is an explicit environment of outcomes: each await point of
    the source reads its result from the environment. *)

From Stdlib Require Import ZArith Lia List Bool String Ascii Sorting.Sorted
  Sorting.Permutation.
From stdpp Require Import base gmap list.
Import ListNotations.
Open Scope Z_scope.

(** ** Results and machine integers *)

(** [anyhow::Result<A>]; the error carries the message of [bail!]. *)
Inductive Result (A : Type) : Type :=
| Ok : A -> Result A
| Err : string -> Result A.
Arguments Ok {A} _.
Arguments Err {A} _.

Definition is_ok {A} (r : Result A) : bool :=
  match r with Ok _ => true | Err _ => false end.

Definition u64_max : Z := 2 ^ 64.
Definition i64_half : Z := 2 ^ 63.

(** [x as i64] for a [u64] [x]: two's complement reinterpretation. *)
Definition u64_as_i64 (x : Z) : Z :=
  if x <? i64_half then x else x - u64_max.

(** [x as u64] for an [i64] [x]. *)
Definition i64_as_u64 (x : Z) : Z := x mod u64_max.

(** [a - b] on [u64]. With overflow checks (debug builds) an underflow
    panics, modelled as [None]; without them (release builds) the result
    wraps modulo 2^64. *)
Definition u64_sub_checked (a b : Z) : option Z :=
  if b <=? a then Some (a - b) else None.
Definition u64_sub_wrapping (a b : Z) : Z := (a - b) mod u64_max.

(** ** Gateway errors and the send path *)

(** The decoded [MultichainACLErrors] variants the code distinguishes. *)
Inductive MultichainACLErrors :=
| CoprocessorAlreadyDelegatedOrRevokedUserDecryption
| UserDecryptionDelegationCounterTooLow
| OtherMultichainACLError.

(** [TransportErrorKind]: [BackendGone], or any other kind together with
    the answer of its [is_retry_err]. *)
Inductive TransportErrorKind :=
| BackendGone
| OtherTransportKind (retry : bool).

Definition is_retry_err (k : TransportErrorKind) : bool :=
  match k with BackendGone => false | OtherTransportKind r => r end.

(** [RpcError<TransportErrorKind>]: an error response whose payload decodes
    (or not: [None]) as a [MultichainACLErrors], a transport error, a local
    usage error, or any other variant. *)
Inductive RpcError :=
| ErrorResp (decoded : option MultichainACLErrors)
| Transport (kind : TransportErrorKind)
| LocalUsageError
| OtherRpcError.

Definition as_error_resp_decoded (e : RpcError) : option MultichainACLErrors :=
  match e with ErrorResp d => d | _ => None end.

Definition non_applicable_delegation (err : RpcError)
  : option MultichainACLErrors :=
  match as_error_resp_decoded err with
  | Some CoprocessorAlreadyDelegatedOrRevokedUserDecryption =>
      Some CoprocessorAlreadyDelegatedOrRevokedUserDecryption
  | Some UserDecryptionDelegationCounterTooLow =>
      Some UserDecryptionDelegationCounterTooLow
  | _ => None
  end.

(** The metrics [DELEGATE_USER_DECRYPT_SUCCESS_COUNTER] and
    [DELEGATE_USER_DECRYPT_FAIL_COUNTER]. *)
Record Counters := { success_counter : nat; fail_counter : nat }.

Definition inc_success (c : Counters) : Counters :=
  {| success_counter := S (success_counter c); fail_counter := fail_counter c |}.
Definition inc_fail (c : Counters) : Counters :=
  {| success_counter := success_counter c; fail_counter := S (fail_counter c) |}.

(** What the gateway answers to one submission: the result of
    [send_transaction] ([None] when the transaction was accepted) and, for
    an accepted transaction, the receipt ([Some status], or [None] when
    [get_receipt] fails, e.g. on timeout). *)
Record SendEnv := {
  se_send_error : option RpcError;
  se_receipt : option bool
}.

Definition send_transaction (se : SendEnv) (c : Counters)
  : Counters * Result unit :=
  match se_send_error se with
  | Some e =>
      match non_applicable_delegation e with
      | Some _ => (c, Ok tt)
      | None =>
          match e with
          | Transport k =>
              if is_retry_err k || match k with BackendGone => true | _ => false end
              then (inc_fail c, Err "Transaction sending failed with unlimited retry error")
              else (inc_fail c, Err "Transaction sending failed")
          | LocalUsageError =>
              (inc_fail c, Err "Transaction sending failed with unlimited retry error")
          | _ => (inc_fail c, Err "Transaction sending failed")
          end
      end
  | None =>
      match se_receipt se with
      | None => (inc_fail c, Err "Getting receipt failed")
      | Some true => (inc_success c, Ok tt)
      | Some false => (inc_fail c, Err "delegate txn failed")
      end
  end.

(** ** The delegation store *)

(** A row of table [delegate_user_decrypt] as Postgres holds it: integer
    columns are [BIGINT] (i64), byte columns [BYTEA]. *)
Record DbRow := {
  db_delegator : list Z;
  db_delegate : list Z;
  db_contract_address : list Z;
  db_delegation_counter : Z;
  db_old_expiry_date : Z;
  db_expiry_date : Z;
  db_host_chain_id : Z;
  db_block_number : Z;
  db_block_hash : list Z;
  db_transaction_id : option (list Z)
}.

Definition Store := list DbRow.

(** [DelegationRow]. *)
Record DelegationRow := {
  delegator : list Z;
  delegate : list Z;
  contract_address : list Z;
  delegation_counter : Z;
  old_expiry_date : Z;
  expiry_date : Z;
  host_chain_id : Z;
  block_hash : list Z;
  block_number : Z;
  transaction_id : option (list Z)
}.

(** The conversion loop of [delayed_sorted_delegation]. *)
Definition to_delegation_row (r : DbRow) : DelegationRow := {|
  delegator := db_delegator r;
  delegate := db_delegate r;
  contract_address := db_contract_address r;
  delegation_counter := i64_as_u64 (db_delegation_counter r);
  old_expiry_date := i64_as_u64 (db_old_expiry_date r);
  expiry_date := i64_as_u64 (db_expiry_date r);
  host_chain_id := i64_as_u64 (db_host_chain_id r);
  block_hash := db_block_hash r;
  block_number := i64_as_u64 (db_block_number r);
  transaction_id := db_transaction_id r
|}.

(** Postgres [BYTEA] comparison: bytewise, a proper prefix first. *)
Fixpoint bytea_compare (a b : list Z) : comparison :=
  match a, b with
  | [], [] => Eq
  | [], _ :: _ => Lt
  | _ :: _, [] => Gt
  | x :: a', y :: b' =>
      match Z.compare x y with Eq => bytea_compare a' b' | c => c end
  end.

(** [ASC] on a nullable column: [NULL] sorts last. *)
Definition nullable_compare (a b : option (list Z)) : comparison :=
  match a, b with
  | None, None => Eq
  | None, Some _ => Gt
  | Some _, None => Lt
  | Some x, Some y => bytea_compare x y
  end.

(** [ORDER BY block_number ASC, delegation_counter ASC, transaction_id ASC]. *)
Definition order_by_compare (a b : DbRow) : comparison :=
  match Z.compare (db_block_number a) (db_block_number b) with
  | Eq =>
      match Z.compare (db_delegation_counter a) (db_delegation_counter b) with
      | Eq => nullable_compare (db_transaction_id a) (db_transaction_id b)
      | c => c
      end
  | c => c
  end.

Definition order_by_le (a b : DbRow) : bool :=
  match order_by_compare a b with Gt => false | _ => true end.

(** The engine's sort for [ORDER BY]; rows with equal sort keys may come
    back in any order, insertion sort fixes one. *)
Fixpoint order_by_insert (x : DbRow) (l : list DbRow) : list DbRow :=
  match l with
  | [] => [x]
  | y :: l' => if order_by_le x y then x :: y :: l' else y :: order_by_insert x l'
  end.

Fixpoint order_by (l : list DbRow) : list DbRow :=
  match l with
  | [] => []
  | x :: l' => order_by_insert x (order_by l')
  end.

(** [SELECT ... WHERE block_number <= $1 ORDER BY ...] with
    [$1 = up_to_block_number as i64], then the conversion to
    [DelegationRow]. *)
Definition delayed_sorted_delegation (store : Store) (up_to_block_number : Z)
  : list DelegationRow :=
  map to_delegation_row
    (order_by (List.filter (fun r => db_block_number r <=? u64_as_i64 up_to_block_number)
                      store)).

(** [DELETE FROM delegate_user_decrypt WHERE block_hash IN (...)]. *)
Definition clean_delegation (store : Store) (blocks_hash : list (list Z)) : Store :=
  match blocks_hash with
  | [] => store
  | _ => List.filter (fun r => negb (bool_decide (db_block_hash r ∈ blocks_hash))) store
  end.

(** ** Readiness classification *)

(** [BlockStatus], with the source's spelling of [Unkown]. *)
Inductive BlockStatus := Unkown | Stable | Dismissed.

#[global] Instance BlockStatus_eq_dec : EqDecision BlockStatus.
Proof. solve_decision. Defined.

(** The host-chain side of [get_block_hash]: the hash at a height, or
    [None] when [get_block_by_number] errors or finds no block (both make
    [get_block_hash] return [Err]). *)
Definition BlockOracle := Z -> option (list Z).

(** The locals of the loop of [tx_check_ready_delegations]. The last two
    fields are ghost: the heights passed to [get_block_hash], and the
    status each delegation was matched against, in loop order. *)
Record CheckState := {
  blocks_status : gmap Z BlockStatus;
  stable_delegations : list DelegationRow;
  unsure_block : list Z;
  nb_unsure_delegations : nat;
  handled_block_delegation : list (list Z);
  oracle_calls : list Z;
  statuses : list (DelegationRow * BlockStatus)
}.

Definition check_init : CheckState := {|
  blocks_status := ∅;
  stable_delegations := [];
  unsure_block := [];
  nb_unsure_delegations := 0;
  handled_block_delegation := [];
  oracle_calls := [];
  statuses := []
|}.

(** One iteration of [for delegation in delegations]. *)
Definition check_step (get_block_hash : BlockOracle) (s : CheckState)
  (delegation : DelegationRow) : CheckState :=
  let '(block_status, cache, unsure, calls) :=
    match blocks_status s !! block_number delegation with
    | Some status => (status, blocks_status s, unsure_block s, oracle_calls s)
    | None =>
        let calls := oracle_calls s ++ [block_number delegation] in
        let '(status, unsure) :=
          match get_block_hash (block_number delegation) with
          | Some h =>
              if bool_decide (block_hash delegation = h)
              then (Stable, unsure_block s) else (Dismissed, unsure_block s)
          | None => (Unkown, unsure_block s ++ [block_number delegation])
          end in
        (status, <[block_number delegation := status]> (blocks_status s), unsure, calls)
    end in
  let ghost := statuses s ++ [(delegation, block_status)] in
  match block_status with
  | Stable => {|
      blocks_status := cache;
      stable_delegations := stable_delegations s ++ [delegation];
      unsure_block := unsure;
      nb_unsure_delegations := nb_unsure_delegations s;
      handled_block_delegation := handled_block_delegation s ++ [block_hash delegation];
      oracle_calls := calls;
      statuses := ghost |}
  | Unkown => {|
      blocks_status := cache;
      stable_delegations := stable_delegations s;
      unsure_block := unsure;
      nb_unsure_delegations := S (nb_unsure_delegations s);
      handled_block_delegation := handled_block_delegation s;
      oracle_calls := calls;
      statuses := ghost |}
  | Dismissed => {|
      blocks_status := cache;
      stable_delegations := stable_delegations s;
      unsure_block := unsure;
      nb_unsure_delegations := nb_unsure_delegations s;
      handled_block_delegation := handled_block_delegation s ++ [block_hash delegation];
      oracle_calls := calls;
      statuses := ghost |}
  end.

Definition check_loop (get_block_hash : BlockOracle) (delegations : list DelegationRow)
  : CheckState :=
  fold_left (check_step get_block_hash) delegations check_init.

(** [tx_check_ready_delegations]; [fetch_ok] is whether the [SELECT]
    succeeds. *)
Definition tx_check_ready_delegations (get_block_hash : BlockOracle) (fetch_ok : bool)
  (store : Store) (last_ready_block : Z)
  : Result (list DelegationRow * list (list Z)) :=
  if negb fetch_ok then Err "delayed_sorted_delegation failed" else
  let delegations := delayed_sorted_delegation store last_ready_block in
  match delegations with
  | [] => Ok ([], [])
  | _ =>
      let s := check_loop get_block_hash delegations in
      Ok (stable_delegations s, handled_block_delegation s)
  end.

(** ** The height wait *)

Definition digit_value (c : ascii) : option Z :=
  let n := Z.of_nat (nat_of_ascii c) in
  if (48 <=? n) && (n <=? 57) then Some (n - 48) else None.

(** The digit loop of [u64::from_str]: [checked_mul(10)] then
    [checked_add(d)], any overflow an error. *)
Fixpoint parse_digits (acc : Z) (s : string) : option Z :=
  match s with
  | EmptyString => Some acc
  | String c s' =>
      match digit_value c with
      | None => None
      | Some d =>
          if acc * 10 <? u64_max then
            if acc * 10 + d <? u64_max then parse_digits (acc * 10 + d) s' else None
          else None
      end
  end.

(** [str::parse::<u64>]: empty input and a lone sign are errors, one
    leading [+] is accepted, [-] is an invalid digit for unsigned types. *)
Definition parse_u64 (s : string) : option Z :=
  match s with
  | EmptyString => None
  | String "+" EmptyString => None
  | String "-" EmptyString => None
  | String "+" rest => parse_digits 0 rest
  | _ => parse_digits 0 s
  end.

(** What [listener.recv()] yields under [tokio::time::timeout]. *)
Inductive RecvOutcome :=
| RecvTimeout
| RecvError
| RecvNotification (payload : string).

(** The outcomes of the await points of [wait_last_block_number]. *)
Record NotifyEnv := {
  ne_connect_ok : bool;
  ne_listen_ok : bool;
  ne_recv : RecvOutcome;
  ne_get_block_number : option Z
}.

Definition from_chost_chain (ne : NotifyEnv) : Result Z :=
  match ne_get_block_number ne with
  | Some n => Ok n
  | None => Err "get_block_number failed"
  end.

Definition wait_last_block_number (ne : NotifyEnv) : Result Z :=
  if negb (ne_connect_ok ne) then Err "PgListener::connect_with failed" else
  if negb (ne_listen_ok ne) then Err "listen failed" else
  match ne_recv ne with
  | RecvTimeout => from_chost_chain ne
  | RecvError => from_chost_chain ne
  | RecvNotification payload =>
      match parse_u64 payload with
      | None => from_chost_chain ne
      | Some block_number => Ok block_number
      end
  end.

(** ** One pass of the orchestrator *)

(** The outcomes of the await points of [execute]. [env_complete] is the
    order in which the runtime completes the spawned tasks, as [join_next]
    returns them: for a real scheduler it is a permutation. *)
Record PassEnv := {
  env_notify : NotifyEnv;
  block_delay_for_delegation : Z;
  env_begin_ok : bool;
  env_fetch_ok : bool;
  env_get_block_hash : BlockOracle;
  env_send : DelegationRow -> SendEnv;
  env_complete : list (Result unit) -> list (Result unit);
  env_rollback_ok : bool;
  env_clean_ok : bool;
  env_commit_ok : bool
}.

(** The end of a pass: the value [execute] returns ([None] when it
    panics), the published store, and as ghost observations the
    threshold handed to the fetch, the tasks spawned, and the tasks still
    in the [JoinSet] when it is dropped (dropping a [JoinSet] aborts
    them). *)
Record PassOutcome := {
  ret : option (Result bool);
  store_after : Store;
  fetched_at : option Z;
  spawned : list DelegationRow;
  aborted : list (Result unit)
}.

(** [while let Some(res) = join_set.join_next().await]: [None] when every
    task succeeded, [Some rest] at the first failure, [rest] being the
    tasks not joined yet. *)
Fixpoint join_loop (completed : list (Result unit)) : option (list (Result unit)) :=
  match completed with
  | [] => None
  | Ok tt :: rest => join_loop rest
  | Err _ :: rest => Some rest
  end.

Definition task_result (env : PassEnv) (d : DelegationRow) : Result unit :=
  snd (send_transaction (env_send env d) {| success_counter := 0; fail_counter := 0 |}).

(** [tx.commit().await?] and [tx.rollback().await?]: the store [local]
    seen inside the transaction is published only by a successful
    commit. *)
Definition commit (env : PassEnv) (store local : Store) (v : bool)
  : option (Result bool) * Store :=
  if env_commit_ok env then (Some (Ok v), local) else (Some (Err "commit failed"), store).

Definition rollback_then_bail (env : PassEnv) (msg : string) : option (Result bool) :=
  if env_rollback_ok env then Some (Err msg) else Some (Err "rollback failed").

(** [Address::from_slice]: an [Address] is exactly 20 bytes, and
    [FixedBytes::from_slice] panics on a slice of any other length
    ([None]). *)
Definition address_from_slice (b : list Z) : option (list Z) :=
  if Nat.eqb (length b) 20 then Some b else None.

(** The three [Address::from_slice] calls building the
    [delegateUserDecryption] request of a delegation. *)
Definition addresses_ok (d : DelegationRow) : bool :=
  match address_from_slice (delegator d), address_from_slice (delegate d),
        address_from_slice (contract_address d) with
  | Some _, Some _, Some _ => true
  | _, _, _ => false
  end.

(** The spawn loop [for delegation in ready_delegations]: the tasks spawned,
    and [false] when building a request panicked before the end of the
    loop. *)
Fixpoint spawn_loop (ready : list DelegationRow) : list DelegationRow * bool :=
  match ready with
  | [] => ([], true)
  | d :: rest =>
      if addresses_ok d then let '(s, fin) := spawn_loop rest in (d :: s, fin)
      else ([], false)
  end.

Definition execute (env : PassEnv) (store : Store) : PassOutcome :=
  match wait_last_block_number (env_notify env) with
  | Err e => {| ret := Some (Err e); store_after := store; fetched_at := None;
                spawned := []; aborted := [] |}
  | Ok block_number =>
  match u64_sub_checked block_number (block_delay_for_delegation env) with
  | None => {| ret := None; store_after := store; fetched_at := None;
               spawned := []; aborted := [] |}
  | Some up_to_block_number =>
  if negb (env_begin_ok env) then
    {| ret := Some (Err "begin failed"); store_after := store; fetched_at := None;
       spawned := []; aborted := [] |} else
  match tx_check_ready_delegations (env_get_block_hash env) (env_fetch_ok env)
          store up_to_block_number with
  | Err _ =>
      {| ret := rollback_then_bail env "Error checking ready delegations, will retry later";
         store_after := store; fetched_at := Some up_to_block_number;
         spawned := []; aborted := [] |}
  | Ok (ready_delegations, handled_block_delegation) =>
  if bool_decide (ready_delegations = []) && bool_decide (handled_block_delegation = [])
  then
    let '(r, st) := commit env store store true in
    {| ret := r; store_after := st; fetched_at := Some up_to_block_number;
       spawned := []; aborted := [] |}
  else
  let '(spawned_tasks, spawn_finished) := spawn_loop ready_delegations in
  if negb spawn_finished then
    (* the panic drops the transaction (rolled back) and the [JoinSet]
       (its tasks are aborted) *)
    {| ret := None; store_after := store; fetched_at := Some up_to_block_number;
       spawned := spawned_tasks; aborted := map (task_result env) spawned_tasks |} else
  let results := map (task_result env) ready_delegations in
  match join_loop (env_complete env results) with
  | Some rest =>
      {| ret := rollback_then_bail env "Error sending delegation transaction, will retry later";
         store_after := store; fetched_at := Some up_to_block_number;
         spawned := ready_delegations; aborted := rest |}
  | None =>
      let local := if env_clean_ok env
                   then clean_delegation store handled_block_delegation else store in
      let '(r, st) := commit env store local true in
      {| ret := r; store_after := st; fetched_at := Some up_to_block_number;
         spawned := ready_delegations; aborted := [] |}
  end
  end
  end
  end.

(** ** Concrete inputs *)

(** A stored delegation anchored at height [bn] in the block with hash
    [hash], with 20-byte addresses. *)
Definition ex_row (bn counter : Z) (hash : list Z) : DbRow := {|
  db_delegator := repeat 1 20; db_delegate := repeat 2 20;
  db_contract_address := repeat 3 20;
  db_delegation_counter := counter; db_old_expiry_date := 0; db_expiry_date := 0;
  db_host_chain_id := 1; db_block_number := bn; db_block_hash := hash;
  db_transaction_id := None
|}.

(** The notification channel delivers [payload] in time. *)
Definition ex_notify (payload : string) : NotifyEnv := {|
  ne_connect_ok := true; ne_listen_ok := true;
  ne_recv := RecvNotification payload; ne_get_block_number := Some 0
|}.

(** A pass where the database works, the channel notifies height 100, the
    finality delay is 0, and tasks complete in spawn order. *)
Definition ex_env (oracle : BlockOracle) (send : DelegationRow -> SendEnv) : PassEnv := {|
  env_notify := ex_notify "100";
  block_delay_for_delegation := 0;
  env_begin_ok := true;
  env_fetch_ok := true;
  env_get_block_hash := oracle;
  env_send := send;
  env_complete := fun l => l;
  env_rollback_ok := true;
  env_clean_ok := true;
  env_commit_ok := true
|}.

Definition ex_oracle (h : list Z) : BlockOracle :=
  fun bn => if bn =? 100 then Some h else None.

Definition send_succeeds : SendEnv := {| se_send_error := None; se_receipt := Some true |}.
Definition send_reverts : SendEnv := {| se_send_error := None; se_receipt := Some false |}.

(** Two Stable candidates at height 100; the one with counter 1 is
    mined but reverted, the other succeeds. *)
Definition c4_store : Store := [ex_row 100 1 [7]; ex_row 100 2 [7]].
Definition c4_env : PassEnv :=
  ex_env (ex_oracle [7])
    (fun d => if delegation_counter d =? 1 then send_reverts else send_succeeds).

(** Two records at height 100 anchored in different blocks: [[1]] was
    reorged out, [[2]] is the live block at height 100. *)
Definition c2_store : Store := [ex_row 100 1 [1]; ex_row 100 2 [2]].
Definition c2_env : PassEnv := ex_env (ex_oracle [2]) (fun _ => send_succeeds).

(** The rows of the order-stability scenario. *)
Definition r100_1 : DbRow := ex_row 100 1 [5].
Definition r100_2 : DbRow := ex_row 100 2 [5].
Definition r101_1 : DbRow := ex_row 101 1 [6].

(** The sort key of the query, read on fetched [DelegationRow]s. *)
Definition delegation_order_compare (a b : DelegationRow) : comparison :=
  match Z.compare (block_number a) (block_number b) with
  | Eq =>
      match Z.compare (delegation_counter a) (delegation_counter b) with
      | Eq => nullable_compare (transaction_id a) (transaction_id b)
      | c => c
      end
  | c => c
  end.

Definition delegation_order_le (a b : DelegationRow) : Prop :=
  delegation_order_compare a b <> Gt.

(** Stored heights and counters are non-negative [BIGINT]s (they are
    written from [u64] values below 2^63). *)
Definition row_wf (r : DbRow) : Prop :=
  0 <= db_block_number r < i64_half /\ 0 <= db_delegation_counter r < i64_half.

Definition benign_rejection (e : RpcError) : Prop :=
  e = ErrorResp (Some CoprocessorAlreadyDelegatedOrRevokedUserDecryption) \/
  e = ErrorResp (Some UserDecryptionDelegationCounterTooLow).

(** The subscription to the channel fails while the host chain answers
    205. *)
Definition c7_notify : NotifyEnv := {|
  ne_connect_ok := true; ne_listen_ok := false;
  ne_recv := RecvTimeout; ne_get_block_number := Some 205
|}.

(** Scenario C of the spec: the notification wait times out, the host
    chain answers 205, the finality delay is 5. *)
Definition scenario_c_notify : NotifyEnv := {|
  ne_connect_ok := true; ne_listen_ok := true;
  ne_recv := RecvTimeout; ne_get_block_number := Some 205
|}.
Definition scenario_c_env : PassEnv := {|
  env_notify := scenario_c_notify;
  block_delay_for_delegation := 5;
  env_begin_ok := true;
  env_fetch_ok := true;
  env_get_block_hash := fun _ => None;
  env_send := fun _ => send_succeeds;
  env_complete := fun l => l;
  env_rollback_ok := true;
  env_clean_ok := true;
  env_commit_ok := true
|}.

(** Every submission is rejected as [UserDecryptionDelegationCounterTooLow]. *)
Definition send_counter_too_low : SendEnv := {|
  se_send_error := Some (ErrorResp (Some UserDecryptionDelegationCounterTooLow));
  se_receipt := None
|}.
Definition c3_env : PassEnv := ex_env (ex_oracle [7]) (fun _ => send_counter_too_low).

(** Every submission succeeds; the [DELETE] fails. *)
Definition c6_env : PassEnv := {|
  env_notify := ex_notify "100";
  block_delay_for_delegation := 0;
  env_begin_ok := true;
  env_fetch_ok := true;
  env_get_block_hash := ex_oracle [7];
  env_send := fun _ => send_succeeds;
  env_complete := fun l => l;
  env_rollback_ok := true;
  env_clean_ok := false;
  env_commit_ok := true
|}.

Definition counters0 : Counters := {| success_counter := 0; fail_counter := 0 |}.

(** The host chain cannot be asked for any block hash. *)
Definition x12_env : PassEnv := ex_env (fun _ => None) (fun _ => send_succeeds).

(** A Stable candidate whose delegator is a single byte, after one with
    well-formed addresses. *)
Definition short_delegator_row : DbRow := {|
  db_delegator := [1]; db_delegate := repeat 2 20; db_contract_address := repeat 3 20;
  db_delegation_counter := 2; db_old_expiry_date := 0; db_expiry_date := 0;
  db_host_chain_id := 1; db_block_number := 100; db_block_hash := [7];
  db_transaction_id := None
|}.
Definition short_addr_store : Store := [ex_row 100 1 [7]; short_delegator_row].

(** The status the loop of [tx_check_ready_delegations] computes for a
    record when its height is not cached yet: the [match] on
    [get_block_hash]. *)
Definition get_status (get_block_hash : BlockOracle) (d : DelegationRow) : BlockStatus :=
  match get_block_hash (block_number d) with
  | Some h => if bool_decide (block_hash d = h) then Stable else Dismissed
  | None => Unkown
  end.

(** The decimal rendering [n.to_string()] of a [u64] (at most 20 digits),
    the form in which heights are published on the channel. *)
Definition ascii_digit (d : Z) : ascii := ascii_of_nat (Z.to_nat (48 + d)).

Fixpoint to_dec (fuel : nat) (n : Z) (acc : string) : string :=
  match fuel with
  | O => acc
  | S f =>
      let acc' := String (ascii_digit (n mod 10)) acc in
      if n <? 10 then acc' else to_dec f (n / 10) acc'
  end.

Definition u64_to_string (n : Z) : string := to_dec 20 n EmptyString.

(** The number of digits [to_dec] writes. *)
Fixpoint dec_len (fuel : nat) (n : Z) : nat :=
  match fuel with
  | O => O
  | S f => if n <? 10 then 1%nat else S (dec_len f (n / 10))
  end.

Definition is_stable (st : BlockStatus) : bool :=
  match st with Stable => true | _ => false end.
Definition is_unkown (st : BlockStatus) : bool :=
  match st with Unkown => true | _ => false end.
Definition is_dismissed (st : BlockStatus) : bool :=
  match st with Dismissed => true | _ => false end.

(** How the outputs of the classification loop relate to the statuses it
    handed out, and where each cached status comes from. *)
Definition loop_rel (g : BlockOracle) (s : CheckState) : Prop :=
  stable_delegations s = map fst (List.filter (fun p => is_stable p.2) (statuses s)) /\
  handled_block_delegation s =
    map (fun p => block_hash p.1) (List.filter (fun p => negb (is_unkown p.2)) (statuses s)) /\
  nb_unsure_delegations s = length (List.filter (fun p => is_unkown p.2) (statuses s)) /\
  unsure_block s =
    List.filter (fun x => match g x with None => true | Some _ => false end) (oracle_calls s) /\
  (forall x v, blocks_status s !! x = Some v ->
     exists p, In p (statuses s) /\ block_number p.1 = x /\ v = get_status g p.1).

(** * Properties *)

(** ** Helper lemmas *)

Lemma benign_send_ok (se : SendEnv) (c : Counters) (e : RpcError) :
  se_send_error se = Some e -> benign_rejection e ->
  send_transaction se c = (c, Ok tt).
Proof.
  intros Hs [-> | ->]; unfold send_transaction; rewrite Hs; reflexivity.
Qed.

Lemma join_loop_all_ok (l : list (Result unit)) :
  Forall (fun r => r = Ok tt) l -> join_loop l = None.
Proof. induction 1 as [|r l -> _ IH]; simpl; auto. Qed.

Lemma join_loop_first_err (pre rest : list (Result unit)) (e : string) :
  Forall (fun r => r = Ok tt) pre -> join_loop (pre ++ Err e :: rest) = Some rest.
Proof. induction 1 as [|r l -> _ IH]; simpl; auto. Qed.

Lemma join_loop_some_err (l : list (Result unit)) (e : string) :
  In (Err e) l -> exists rest, join_loop l = Some rest.
Proof.
  induction l as [|r l IH]; simpl; [tauto|].
  intros [Hr | Hin]; [subst r; simpl; eauto|].
  destruct r as [[]|]; simpl; eauto.
Qed.

(** The first failure in completion order splits the joined results. *)
Lemma first_err_split (l : list (Result unit)) :
  Forall (fun r => r = Ok tt) l \/
  exists pre e rest, l = pre ++ Err e :: rest /\ Forall (fun r => r = Ok tt) pre.
Proof.
  induction l as [|r l [IH | (pre & e & rest & -> & Hpre)]]; [left; constructor | |].
  - destruct r as [[]|e]; [left; constructor; auto|].
    right; exists [], e, l; split; [reflexivity|constructor].
  - destruct r as [[]|e'].
    + right; exists (Ok tt :: pre), e, rest; split; [reflexivity|constructor; auto].
    + right; exists [], e', (pre ++ Err e :: rest); split; [reflexivity|constructor].
Qed.

Lemma spawn_loop_all_ok (ready : list DelegationRow) :
  (forall d, In d ready -> addresses_ok d = true) -> spawn_loop ready = (ready, true).
Proof.
  induction ready as [|d ready IH]; intros H; simpl; [reflexivity|].
  rewrite H by (left; reflexivity); rewrite IH by (intros d' Hd'; apply H; right; exact Hd').
  reflexivity.
Qed.

Lemma spawn_loop_prefix (ready : list DelegationRow) :
  exists rest, ready = fst (spawn_loop ready) ++ rest.
Proof.
  induction ready as [|d ready [rest IH]]; simpl; [exists []; reflexivity|].
  destruct (addresses_ok d); [|exists (d :: ready); reflexivity].
  destruct (spawn_loop ready) as [sp fin]; simpl in *; exists rest; rewrite IH at 1; reflexivity.
Qed.

Lemma spawn_loop_finished (ready : list DelegationRow) :
  snd (spawn_loop ready) = true -> forall d, In d ready -> addresses_ok d = true.
Proof.
  induction ready as [|d0 ready IH]; simpl; [tauto|].
  destruct (addresses_ok d0) eqn:E; [|discriminate].
  destruct (spawn_loop ready) as [sp fin]; simpl in *.
  intros Hfin d [<- | Hd]; auto.
Qed.

(** A pass whose spawn loop panics, on a record with an address that is
    not 20 bytes long: the store is the one it started from. *)
Lemma execute_spawn_panic (env : PassEnv) (store : Store) (h : Z)
  (ready : list DelegationRow) (handled : list (list Z)) :
  wait_last_block_number (env_notify env) = Ok h ->
  block_delay_for_delegation env <= h ->
  env_begin_ok env = true ->
  tx_check_ready_delegations (env_get_block_hash env) (env_fetch_ok env) store
    (h - block_delay_for_delegation env) = Ok (ready, handled) ->
  ~ (ready = [] /\ handled = []) ->
  snd (spawn_loop ready) = false ->
  ret (execute env store) = None /\ store_after (execute env store) = store /\
  spawned (execute env store) = fst (spawn_loop ready) /\
  aborted (execute env store) = map (task_result env) (fst (spawn_loop ready)).
Proof.
  intros Hw Hle Hb Htx Hne Hfin.
  unfold execute; rewrite Hw; unfold u64_sub_checked.
  rewrite (proj2 (Z.leb_le _ _) Hle), Hb; cbn [negb].
  rewrite Htx.
  destruct (bool_decide (ready = [])) eqn:E1, (bool_decide (handled = [])) eqn:E2;
    cbn [andb].
  { apply bool_decide_eq_true in E1, E2; tauto. }
  all: destruct (spawn_loop ready) as [sp fin]; simpl in Hfin; subst fin; simpl; auto.
Qed.

(** Running [execute] up to the fan-in: the notifier answered [h], the
    subtraction did not underflow, the transaction began, the
    classification returned [(ready, handled)] and every request was
    built. *)
Lemma execute_reaches_join (env : PassEnv) (store : Store) (h : Z)
  (ready : list DelegationRow) (handled : list (list Z)) :
  wait_last_block_number (env_notify env) = Ok h ->
  block_delay_for_delegation env <= h ->
  env_begin_ok env = true ->
  tx_check_ready_delegations (env_get_block_hash env) (env_fetch_ok env) store
    (h - block_delay_for_delegation env) = Ok (ready, handled) ->
  ~ (ready = [] /\ handled = []) ->
  (forall d, In d ready -> addresses_ok d = true) ->
  execute env store =
  match join_loop (env_complete env (map (task_result env) ready)) with
  | Some rest =>
      {| ret := rollback_then_bail env "Error sending delegation transaction, will retry later";
         store_after := store; fetched_at := Some (h - block_delay_for_delegation env);
         spawned := ready; aborted := rest |}
  | None =>
      let local := if env_clean_ok env then clean_delegation store handled else store in
      let '(r, st) := commit env store local true in
      {| ret := r; store_after := st; fetched_at := Some (h - block_delay_for_delegation env);
         spawned := ready; aborted := [] |}
  end.
Proof.
  intros Hw Hle Hb Htx Hne Haddr.
  unfold execute; rewrite Hw; unfold u64_sub_checked.
  rewrite (proj2 (Z.leb_le _ _) Hle), Hb; cbn [negb].
  rewrite Htx.
  destruct (bool_decide (ready = [])) eqn:E1, (bool_decide (handled = [])) eqn:E2;
    cbn [andb]; try (rewrite spawn_loop_all_ok by exact Haddr; reflexivity).
  apply bool_decide_eq_true in E1, E2; tauto.
Qed.

Lemma task_results_ok (env : PassEnv) (ready : list DelegationRow) :
  (forall d, In d ready -> task_result env d = Ok tt) ->
  Forall (fun r => r = Ok tt) (map (task_result env) ready).
Proof.
  intros H; apply List.Forall_forall; intros r Hr.
  apply in_map_iff in Hr as (d & <- & Hd); auto.
Qed.

(** ** C3: benign rejections *)

(** C3. A send error that decodes to
    [CoprocessorAlreadyDelegatedOrRevokedUserDecryption] or
    [UserDecryptionDelegationCounterTooLow] makes [send_transaction]
    return [Ok(())] with both counters untouched; and a pass whose
    submissions are all such rejections (the rest of the pass going well,
    and every address of the ready records being 20 bytes long, so that
    [Address::from_slice] does not panic) returns [Ok(true)] and publishes the store with the handled anchoring
    hashes deleted, whatever order the tasks complete in. *)
Theorem C3_benign_rejection_success :
  (forall (se : SendEnv) (c : Counters) (e : RpcError),
      se_send_error se = Some e -> benign_rejection e ->
      send_transaction se c = (c, Ok tt)) /\
  (forall (env : PassEnv) (store : Store) (h : Z)
          (ready : list DelegationRow) (handled : list (list Z)),
      wait_last_block_number (env_notify env) = Ok h ->
      block_delay_for_delegation env <= h ->
      env_begin_ok env = true ->
      tx_check_ready_delegations (env_get_block_hash env) (env_fetch_ok env) store
        (h - block_delay_for_delegation env) = Ok (ready, handled) ->
      (forall d, In d ready -> exists e,
           se_send_error (env_send env d) = Some e /\ benign_rejection e) ->
      (forall d, In d ready -> addresses_ok d = true) ->
      (forall l, Permutation (env_complete env l) l) ->
      env_clean_ok env = true -> env_commit_ok env = true ->
      (forall d c, In d ready -> fail_counter (fst (send_transaction (env_send env d) c))
                                 = fail_counter c) /\
      ret (execute env store) = Some (Ok true) /\
      store_after (execute env store) = clean_delegation store handled).
Proof.
  split; [exact benign_send_ok|].
  intros env store h ready handled Hw Hle Hb Htx Hben Haddr Hperm Hcl Hco.
  assert (Hsend : forall d c, In d ready -> send_transaction (env_send env d) c = (c, Ok tt)).
  { intros d c Hd; destruct (Hben d Hd) as (e & He & Hbe); eapply benign_send_ok; eauto. }
  split; [intros d c Hd; rewrite (Hsend d c Hd); reflexivity|].
  destruct (decide (ready = [] /\ handled = [])) as [[-> ->] | Hne].
  - unfold execute; rewrite Hw; unfold u64_sub_checked.
    rewrite (proj2 (Z.leb_le _ _) Hle), Hb; cbn [negb]; rewrite Htx.
    unfold commit; rewrite Hco; auto.
  - rewrite (execute_reaches_join env store h ready handled Hw Hle Hb Htx Hne Haddr).
    rewrite join_loop_all_ok.
    + unfold commit; rewrite Hcl, Hco; auto.
    + eapply Permutation_Forall; [symmetry; apply Hperm|].
      apply task_results_ok; intros d Hd; unfold task_result; rewrite Hsend; auto.
Qed.

(** ** C1: atomicity of a pass *)

(** C1. If the submission of at least one of the Stable candidates fails,
    then whatever order the tasks complete in, the published store is the
    one the pass started from: no anchoring hash is deleted. The pass
    returns an error after rolling back, or panics while building the
    requests (an address not 20 bytes long), which drops the transaction
    uncommitted; when every address is 20 bytes long it returns an
    error. *)
Theorem C1_failure_rolls_back_all :
  forall (env : PassEnv) (store : Store) (h : Z)
         (ready : list DelegationRow) (handled : list (list Z)) (d : DelegationRow)
         (msg : string),
    wait_last_block_number (env_notify env) = Ok h ->
    block_delay_for_delegation env <= h ->
    env_begin_ok env = true ->
    tx_check_ready_delegations (env_get_block_hash env) (env_fetch_ok env) store
      (h - block_delay_for_delegation env) = Ok (ready, handled) ->
    (forall l, Permutation (env_complete env l) l) ->
    In d ready -> task_result env d = Err msg ->
    store_after (execute env store) = store /\
    (ret (execute env store) = None \/ exists m, ret (execute env store) = Some (Err m)) /\
    ((forall d', In d' ready -> addresses_ok d' = true) ->
       exists m, ret (execute env store) = Some (Err m)).
Proof.
  intros env store h ready handled d msg Hw Hle Hb Htx Hperm Hd Hfail.
  assert (Hne : ~ (ready = [] /\ handled = [])) by (intros [-> _]; inversion Hd).
  destruct (snd (spawn_loop ready)) eqn:Hfin.
  - pose proof (spawn_loop_finished ready Hfin) as Haddr.
    assert (Herr : store_after (execute env store) = store /\
                   exists m, ret (execute env store) = Some (Err m)).
    { rewrite (execute_reaches_join env store h ready handled Hw Hle Hb Htx Hne Haddr).
      destruct (join_loop_some_err (env_complete env (map (task_result env) ready)) msg)
        as (rest & Hj).
      { eapply Permutation_in; [symmetry; apply Hperm|].
        rewrite <- Hfail; apply in_map; exact Hd. }
      rewrite Hj; simpl; split; [reflexivity|].
      unfold rollback_then_bail; destruct (env_rollback_ok env); eauto. }
    destruct Herr as [Hs Hr]; split; [exact Hs|]; split; [right; exact Hr|]; auto.
  - destruct (execute_spawn_panic env store h ready handled Hw Hle Hb Htx Hne Hfin)
      as (Hr & Hs & _).
    split; [exact Hs|]; split; [left; exact Hr|].
    intros Haddr; rewrite spawn_loop_all_ok in Hfin by exact Haddr; discriminate.
Qed.

(** ** C4: fan-in of the submissions *)

(** C4 (as stated, refuted). With two spawned submissions of which the
    first to complete fails, the pass returns its error after joining one
    task only: the other task is still in the [JoinSet] when the pass
    returns, and dropping the set aborts it. *)
Lemma C4_counterexample_first_failure_returns_early :
  let o := execute c4_env c4_store in
  length (spawned o) = 2%nat /\ aborted o = [Ok tt] /\ store_after o = c4_store /\
  ret o = Some (Err "Error sending delegation transaction, will retry later").
Proof. vm_compute. repeat split; reflexivity. Qed.

(** C4 (amended). When every request is built (all addresses 20 bytes
    long), all Stable candidates are spawned and the tasks are joined in
    completion order. If
    all of them succeed, none is left unjoined and the pass goes on to the
    cleanup. At the first failed result the pass rolls back and returns an
    error at once: the tasks completing after it are left in the
    [JoinSet] and aborted with it, and the store is untouched. *)
Theorem C4_join_until_first_failure :
  forall (env : PassEnv) (store : Store) (h : Z)
         (ready : list DelegationRow) (handled : list (list Z)),
    wait_last_block_number (env_notify env) = Ok h ->
    block_delay_for_delegation env <= h ->
    env_begin_ok env = true ->
    tx_check_ready_delegations (env_get_block_hash env) (env_fetch_ok env) store
      (h - block_delay_for_delegation env) = Ok (ready, handled) ->
    ~ (ready = [] /\ handled = []) ->
    (forall d, In d ready -> addresses_ok d = true) ->
    let completed := env_complete env (map (task_result env) ready) in
    (Forall (fun r => r = Ok tt) completed ->
       aborted (execute env store) = [] /\
       store_after (execute env store) =
         if env_commit_ok env
         then (if env_clean_ok env then clean_delegation store handled else store)
         else store) /\
    (forall pre e rest, completed = pre ++ Err e :: rest ->
       Forall (fun r => r = Ok tt) pre ->
       aborted (execute env store) = rest /\
       store_after (execute env store) = store /\
       exists m, ret (execute env store) = Some (Err m)).
Proof.
  intros env store h ready handled Hw Hle Hb Htx Hne Haddr completed.
  rewrite (execute_reaches_join env store h ready handled Hw Hle Hb Htx Hne Haddr).
  fold completed; split.
  - intros Hall; rewrite (join_loop_all_ok completed Hall).
    unfold commit; destruct (env_commit_ok env); simpl; auto.
  - intros pre e rest Hc Hpre; rewrite Hc, (join_loop_first_err pre rest e Hpre); simpl.
    repeat split; auto.
    unfold rollback_then_bail; destruct (env_rollback_ok env); eauto.
Qed.

(** ** C6: best-effort cleanup *)

(** C6. When every request is built (all addresses 20 bytes long) and
    every spawned submission succeeds but the [DELETE] of the
    handled anchoring hashes fails, the pass still commits and returns
    [Ok(true)]; the store it publishes still holds every record. *)
Theorem C6_cleanup_failure_still_commits :
  forall (env : PassEnv) (store : Store) (h : Z)
         (ready : list DelegationRow) (handled : list (list Z)),
    wait_last_block_number (env_notify env) = Ok h ->
    block_delay_for_delegation env <= h ->
    env_begin_ok env = true ->
    tx_check_ready_delegations (env_get_block_hash env) (env_fetch_ok env) store
      (h - block_delay_for_delegation env) = Ok (ready, handled) ->
    (forall l, Permutation (env_complete env l) l) ->
    (forall d, In d ready -> addresses_ok d = true) ->
    (forall d, In d ready -> task_result env d = Ok tt) ->
    env_clean_ok env = false -> env_commit_ok env = true ->
    ret (execute env store) = Some (Ok true) /\ store_after (execute env store) = store.
Proof.
  intros env store h ready handled Hw Hle Hb Htx Hperm Haddr Hok Hcl Hco.
  destruct (decide (ready = [] /\ handled = [])) as [[-> ->] | Hne].
  - unfold execute; rewrite Hw; unfold u64_sub_checked.
    rewrite (proj2 (Z.leb_le _ _) Hle), Hb; cbn [negb]; rewrite Htx.
    unfold commit; rewrite Hco; auto.
  - rewrite (execute_reaches_join env store h ready handled Hw Hle Hb Htx Hne Haddr).
    rewrite join_loop_all_ok.
    + unfold commit; rewrite Hcl, Hco; auto.
    + eapply Permutation_Forall; [symmetry; apply Hperm|].
      apply task_results_ok; exact Hok.
Qed.

(** ** C8: one oracle call per height *)

Section Memo.
Variable get_block_hash : BlockOracle.

(** One iteration either hits the cache or calls the oracle once and
    stores the status it computed. *)
Lemma check_step_cases (s : CheckState) (d : DelegationRow) :
  exists st,
    statuses (check_step get_block_hash s d) = statuses s ++ [(d, st)] /\
    ((blocks_status s !! block_number d = Some st /\
      blocks_status (check_step get_block_hash s d) = blocks_status s /\
      oracle_calls (check_step get_block_hash s d) = oracle_calls s) \/
     (blocks_status s !! block_number d = None /\
      blocks_status (check_step get_block_hash s d) =
        <[block_number d := st]> (blocks_status s) /\
      oracle_calls (check_step get_block_hash s d) = oracle_calls s ++ [block_number d])).
Proof.
  unfold check_step.
  destruct (blocks_status s !! block_number d) as [st|] eqn:E.
  - exists st; destruct st; simpl; auto.
  - destruct (get_block_hash (block_number d)) as [hh|];
      [destruct (bool_decide (block_hash d = hh))|]; simpl;
      (eexists; split; [reflexivity|right; auto]).
Qed.

(** The cache holds exactly the heights the oracle was asked about, each
    once, each asked for some delegation already seen, and every status
    handed out is the cached status of its height. *)
Definition memo_inv (s : CheckState) : Prop :=
  NoDup (oracle_calls s) /\
  (forall x, In x (oracle_calls s) <-> is_Some (blocks_status s !! x)) /\
  (forall p, In p (statuses s) -> blocks_status s !! block_number p.1 = Some p.2) /\
  (forall x, In x (oracle_calls s) -> exists p, In p (statuses s) /\ block_number p.1 = x).

Lemma memo_inv_init : memo_inv check_init.
Proof.
  repeat split; simpl; try tauto.
  - constructor.
  - rewrite lookup_empty; intros [? H]; discriminate.
Qed.

Lemma memo_inv_step (s : CheckState) (d : DelegationRow) :
  memo_inv s -> memo_inv (check_step get_block_hash s d).
Proof.
  intros (Hnd & Hdom & Hst & Hcall).
  destruct (check_step_cases s d) as (st & Hs & [(E & Hb & Hc) | (E & Hb & Hc)]);
    unfold memo_inv; rewrite Hs, Hb, Hc.
  - split; [exact Hnd|split; [exact Hdom|split]].
    + intros p Hp; apply in_app_or in Hp as [Hp | [<- | []]]; auto.
    + intros x Hx; destruct (Hcall x Hx) as (p & Hp & Hpx).
      exists p; split; auto; apply in_or_app; auto.
  - assert (Hnew : ~ In (block_number d) (oracle_calls s)).
    { intros Hin; apply Hdom in Hin; rewrite E in Hin; destruct Hin; discriminate. }
    split; [|split; [|split]].
    + apply NoDup_app; split; [exact Hnd|split; [|apply NoDup_singleton]].
      intros x Hx Hx'; apply list_elem_of_In in Hx.
      apply list_elem_of_singleton in Hx'; subst; contradiction.
    + intros x; split.
      * intros Hx; apply in_app_or in Hx as [Hx | [<- | []]].
        -- destruct (decide (block_number d = x)) as [<- | Hne];
             [rewrite lookup_insert_eq; eauto|rewrite lookup_insert_ne; auto; apply Hdom; auto].
        -- rewrite lookup_insert_eq; eauto.
      * intros Hx; apply in_or_app.
        destruct (decide (block_number d = x)) as [<- | Hne]; [right; left; auto|].
        rewrite lookup_insert_ne in Hx by auto; left; apply Hdom; auto.
    + intros p Hp; apply in_app_or in Hp as [Hp | [<- | []]].
      * destruct (decide (block_number d = block_number p.1)) as [Heq | Hne].
        -- specialize (Hst p Hp); rewrite <- Heq, E in Hst; discriminate.
        -- rewrite lookup_insert_ne; auto.
      * simpl; apply lookup_insert_eq.
    + intros x Hx; apply in_app_or in Hx as [Hx | [<- | []]].
      * destruct (Hcall x Hx) as (p & Hp & Hpx); exists p; split; auto; apply in_or_app; auto.
      * exists (d, st); split; auto; apply in_or_app; right; left; auto.
Qed.

Lemma check_fold_spec (ds : list DelegationRow) (s : CheckState) :
  memo_inv s ->
  memo_inv (fold_left (check_step get_block_hash) ds s) /\
  map fst (statuses (fold_left (check_step get_block_hash) ds s)) = map fst (statuses s) ++ ds.
Proof.
  revert s; induction ds as [|d ds IH]; intros s Hs; simpl.
  - rewrite app_nil_r; auto.
  - destruct (IH (check_step get_block_hash s d) (memo_inv_step s d Hs)) as [H1 H2].
    split; auto; rewrite H2.
    destruct (check_step_cases s d) as (st & Hst & _); rewrite Hst, map_app, <- app_assoc.
    reflexivity.
Qed.

End Memo.

(** C8. In one run of the classification loop, [get_block_hash] is called
    at most once per distinct height (the heights called are pairwise
    distinct and each is the height of some fetched record), the loop
    assigns a status to each fetched record in order, and two records at
    the same height get the same status. *)
Theorem C8_one_lookup_per_height :
  forall (get_block_hash : BlockOracle) (ds : list DelegationRow),
    let s := check_loop get_block_hash ds in
    NoDup (oracle_calls s) /\
    (forall x, In x (oracle_calls s) -> exists d, In d ds /\ block_number d = x) /\
    map fst (statuses s) = ds /\
    (forall d1 st1 d2 st2, In (d1, st1) (statuses s) -> In (d2, st2) (statuses s) ->
       block_number d1 = block_number d2 -> st1 = st2).
Proof.
  intros g ds s.
  destruct (check_fold_spec g ds check_init (memo_inv_init)) as [(Hnd & _ & Hst & Hcall) Hmap].
  fold s in Hnd, Hst, Hcall, Hmap; simpl in Hmap.
  repeat split; auto.
  - intros x Hx; destruct (Hcall x Hx) as (p & Hp & <-).
    exists p.1; split; auto.
    rewrite <- Hmap; apply in_map; auto.
  - intros d1 st1 d2 st2 H1 H2 Heq.
    pose proof (Hst _ H1) as E1; pose proof (Hst _ H2) as E2; simpl in E1, E2.
    rewrite Heq, E2 in E1; congruence.
Qed.

(** ** C2: classification of the fetched records *)

(** C2 (code defect). The cache [blocks_status] is keyed by height only,
    but the status it stores was computed by comparing the live hash with
    the hash of the first record seen at that height. Here the first record
    at height 100 is anchored in the reorged-out block [[1]] and the second
    in the live block [[2]]: the second record is also classified
    Dismissed, never submitted, and deleted from the store by the pass. *)
Theorem C2_cached_status_misclassifies_live_record :
  let ds := delayed_sorted_delegation c2_store 100 in
  let s := check_loop (ex_oracle [2]) ds in
  ds = map to_delegation_row c2_store /\
  ex_oracle [2] 100 = Some (db_block_hash (ex_row 100 2 [2])) /\
  statuses s = [(to_delegation_row (ex_row 100 1 [1]), Dismissed);
                (to_delegation_row (ex_row 100 2 [2]), Dismissed)] /\
  stable_delegations s = [] /\
  handled_block_delegation s = [[1]; [2]] /\
  spawned (execute c2_env c2_store) = [] /\
  store_after (execute c2_env c2_store) = [] /\
  ret (execute c2_env c2_store) = Some (Ok true).
Proof. vm_compute. repeat split; reflexivity. Qed.

(** ** C5: the fetch query *)

Lemma bytea_compare_antisym (a b : list Z) :
  bytea_compare b a = CompOpp (bytea_compare a b).
Proof.
  revert b; induction a as [|x a IH]; intros [|y b]; simpl; auto.
  destruct (Z.compare x y) eqn:E; rewrite Z.compare_antisym, E; simpl; auto.
Qed.

Lemma nullable_compare_antisym (a b : option (list Z)) :
  nullable_compare b a = CompOpp (nullable_compare a b).
Proof. destruct a, b; simpl; auto using bytea_compare_antisym. Qed.

Lemma order_by_compare_antisym (a b : DbRow) :
  order_by_compare b a = CompOpp (order_by_compare a b).
Proof.
  unfold order_by_compare.
  destruct (Z.compare (db_block_number a) (db_block_number b)) eqn:E1;
    rewrite Z.compare_antisym, E1; simpl; auto.
  destruct (Z.compare (db_delegation_counter a) (db_delegation_counter b)) eqn:E2;
    rewrite Z.compare_antisym, E2; simpl; auto.
  apply nullable_compare_antisym.
Qed.

Lemma order_by_le_total (a b : DbRow) :
  order_by_le a b = false -> order_by_le b a = true.
Proof.
  intros H; unfold order_by_le in *; rewrite (order_by_compare_antisym a b).
  destruct (order_by_compare a b); simpl; congruence.
Qed.

Abbreviation order_by_rel := (fun a b => order_by_le a b = true).

Lemma order_by_insert_hd (y x : DbRow) (l : list DbRow) :
  HdRel order_by_rel y l -> order_by_le y x = true -> HdRel order_by_rel y (order_by_insert x l).
Proof.
  intros Hhd Hyx; destruct l as [|z l]; simpl; [constructor; auto|].
  inversion Hhd; subst.
  destruct (order_by_le x z); constructor; auto.
Qed.

Lemma order_by_insert_sorted (x : DbRow) (l : list DbRow) :
  Sorted order_by_rel l -> Sorted order_by_rel (order_by_insert x l).
Proof.
  induction 1 as [|y l Hs IH Hhd]; simpl; [repeat constructor|].
  destruct (order_by_le x y) eqn:E.
  - constructor; [constructor; auto|constructor; auto].
  - constructor; [exact IH|].
    apply order_by_insert_hd; auto using order_by_le_total.
Qed.

Lemma order_by_sorted (l : list DbRow) : Sorted order_by_rel (order_by l).
Proof. induction l; simpl; auto using order_by_insert_sorted. Qed.

Lemma order_by_insert_perm (x : DbRow) (l : list DbRow) :
  Permutation (order_by_insert x l) (x :: l).
Proof.
  induction l as [|y l IH]; simpl; auto.
  destruct (order_by_le x y); auto.
  rewrite IH; apply perm_swap.
Qed.

Lemma order_by_perm (l : list DbRow) : Permutation (order_by l) l.
Proof.
  induction l as [|x l IH]; simpl; auto.
  rewrite order_by_insert_perm; auto.
Qed.

Lemma i64_as_u64_small (x : Z) : 0 <= x < i64_half -> i64_as_u64 x = x.
Proof.
  intros H; unfold i64_as_u64, i64_half, u64_max in *.
  apply Z.mod_small; lia.
Qed.

Lemma u64_as_i64_small (x : Z) : 0 <= x < i64_half -> u64_as_i64 x = x.
Proof.
  intros H; unfold u64_as_i64; rewrite (proj2 (Z.ltb_lt _ _) (proj2 H)); reflexivity.
Qed.

Lemma delegation_order_compare_rows (a b : DbRow) :
  row_wf a -> row_wf b ->
  delegation_order_compare (to_delegation_row a) (to_delegation_row b) = order_by_compare a b.
Proof.
  intros [Ha1 Ha2] [Hb1 Hb2]; unfold delegation_order_compare, order_by_compare; simpl.
  rewrite !i64_as_u64_small by auto; reflexivity.
Qed.

Lemma sorted_map_rows (l : list DbRow) :
  Forall row_wf l -> Sorted order_by_rel l ->
  Sorted delegation_order_le (map to_delegation_row l).
Proof.
  intros Hwf Hs; induction Hs as [|y l Hs IH Hhd]; simpl; constructor.
  - inversion Hwf; auto.
  - destruct Hhd as [|z l' Hyz]; simpl; constructor.
    inversion Hwf as [|? ? Hy Hl]; inversion Hl; subst.
    unfold delegation_order_le; rewrite delegation_order_compare_rows by auto.
    unfold order_by_le in Hyz; destruct (order_by_compare y z); congruence.
Qed.

Lemma fetch_small_threshold (store : Store) (thr : Z) :
  0 <= thr < i64_half ->
  delayed_sorted_delegation store thr =
  map to_delegation_row (order_by (List.filter (fun r => db_block_number r <=? thr) store)).
Proof. intros H; unfold delayed_sorted_delegation; rewrite u64_as_i64_small; auto. Qed.

Lemma filter_all_true {A} (f : A -> bool) (l : list A) :
  (forall x, In x l -> f x = true) -> List.filter f l = l.
Proof.
  induction l as [|x l IH]; simpl; intros H; auto.
  rewrite H by auto; f_equal; auto.
Qed.

Lemma filter_all_false {A} (f : A -> bool) (l : list A) :
  (forall x, In x l -> f x = false) -> List.filter f l = [].
Proof.
  induction l as [|x l IH]; simpl; intros H; auto.
  rewrite H by auto; auto.
Qed.

(** C5 (as stated, refuted). The threshold is passed to the query as
    [up_to_block_number as i64]: for [u64::MAX] that is [-1], so the fetch
    returns nothing although a stored record at height 100 lies below the
    threshold. The columns are read back with [as u64] after the [ORDER BY]
    on the stored [BIGINT]s, so a negative stored height is fetched at
    threshold 150 and comes back as 2^64 - 1, above the threshold, and a
    negative stored counter is sorted first and comes back as 2^64 - 1,
    before counter 1: the sentence needs stored values that are
    non-negative. *)
Lemma C5_counterexample_casts :
  (delayed_sorted_delegation [r100_1] (u64_max - 1) = [] /\
   db_block_number r100_1 <= u64_max - 1) /\
  map block_number (delayed_sorted_delegation [ex_row (-1) 1 [5]] 150) = [u64_max - 1] /\
  map delegation_counter
    (delayed_sorted_delegation [ex_row 100 1 [5]; ex_row 100 (-1) [5]] 150) = [u64_max - 1; 1].
Proof. vm_compute. repeat split; first [reflexivity | discriminate]. Qed.

(** C5 (amended). For every threshold below 2^63 and a store of
    well-formed rows, the fetch returns exactly the stored records with
    [block_number <= threshold] (as a permutation of them), ordered by
    [(block_number, delegation_counter, transaction_id)] ascending; in
    particular rows at (100, counter 1), (100, counter 2) and (101,
    counter 1), stored in any order, come back in exactly that sequence
    at any threshold from 101 up to 2^63 - 1. A threshold of 2^63 or more
    becomes negative after the cast and selects no well-formed row. *)
Theorem C5_fetch_sorted_below_i64 :
  (forall (store : Store) (thr : Z),
     0 <= thr < i64_half -> Forall row_wf store ->
     let out := delayed_sorted_delegation store thr in
     Sorted delegation_order_le out /\
     Permutation out (map to_delegation_row
                        (List.filter (fun r => db_block_number r <=? thr) store)) /\
     (forall d, In d out -> block_number d <= thr)) /\
  (forall (store : Store) (thr : Z),
     101 <= thr < i64_half -> Permutation store [r100_1; r100_2; r101_1] ->
     delayed_sorted_delegation store thr = map to_delegation_row [r100_1; r100_2; r101_1]) /\
  (forall (store : Store) (thr : Z),
     i64_half <= thr < u64_max -> Forall row_wf store ->
     delayed_sorted_delegation store thr = []).
Proof.
  split; [|split].
  - intros store thr Hthr Hwf out; unfold out; rewrite fetch_small_threshold by auto.
    split; [|split].
    + apply sorted_map_rows; [|apply order_by_sorted].
      eapply Permutation_Forall; [symmetry; apply order_by_perm|].
      apply List.Forall_forall; intros r Hr; apply filter_In in Hr as [Hr _].
      eapply List.Forall_forall in Hwf; eauto.
    + apply Permutation_map, order_by_perm.
    + intros d Hd; apply in_map_iff in Hd as (r & <- & Hr).
      apply (Permutation_in _ (order_by_perm _)) in Hr.
      apply filter_In in Hr as [Hr Hle]; apply Z.leb_le in Hle.
      eapply List.Forall_forall in Hwf; [|exact Hr]; destruct Hwf.
      simpl; rewrite i64_as_u64_small; auto.
  - intros store thr Hthr Hp.
    rewrite fetch_small_threshold by lia.
    rewrite filter_all_true.
    2:{ intros r Hr; apply (Permutation_in _ Hp) in Hr; apply Z.leb_le.
        simpl in Hr; destruct Hr as [<- | [<- | [<- | []]]]; simpl; lia. }
    assert (Hin : store ∈ permutations [r100_1; r100_2; r101_1])
      by (apply permutations_Permutation; symmetry; exact Hp).
    apply list_elem_of_In in Hin; vm_compute in Hin.
    repeat (destruct Hin as [<- | Hin]; [vm_compute; reflexivity|]); destruct Hin.
  - intros store thr Hthr Hwf; unfold delayed_sorted_delegation, u64_as_i64.
    rewrite (proj2 (Z.ltb_ge _ _)) by lia.
    rewrite filter_all_false; [reflexivity|].
    intros r Hr; eapply List.Forall_forall in Hwf; [|exact Hr]; destruct Hwf.
    apply Z.leb_gt; unfold u64_max, i64_half in *; lia.
Qed.

(** ** C7: the height wait *)

Example parse_u64_examples :
  parse_u64 "205" = Some 205 /\ parse_u64 "+7" = Some 7 /\ parse_u64 "" = None /\
  parse_u64 "-1" = None /\ parse_u64 "12a" = None /\
  parse_u64 "18446744073709551615" = Some (u64_max - 1) /\
  parse_u64 "18446744073709551616" = None.
Proof. vm_compute; repeat split; reflexivity. Qed.

(** C7 (as stated, refuted). An error while subscribing to the channel
    ([listener.listen(..)?]) is propagated: the wait returns an error
    instead of the height the host chain would answer. *)
Lemma C7_counterexample_subscribe_error_propagates :
  wait_last_block_number c7_notify = Err "listen failed" /\
  from_chost_chain c7_notify = Ok 205.
Proof. split; reflexivity. Qed.

(** C7 (amended). Once connected and subscribed, the wait returns the
    result of the direct height query when no notification arrives in
    time, when [recv] errors, or when the payload does not parse as a
    [u64]; a well-formed payload yields the notified height. An error
    while connecting or subscribing is returned as an error. *)
Theorem C7_height_wait_fallbacks :
  forall ne : NotifyEnv,
    ((ne_connect_ok ne = false \/ ne_listen_ok ne = false) ->
       exists m, wait_last_block_number ne = Err m) /\
    (ne_connect_ok ne = true -> ne_listen_ok ne = true ->
       (ne_recv ne = RecvTimeout -> wait_last_block_number ne = from_chost_chain ne) /\
       (ne_recv ne = RecvError -> wait_last_block_number ne = from_chost_chain ne) /\
       (forall payload, ne_recv ne = RecvNotification payload -> parse_u64 payload = None ->
          wait_last_block_number ne = from_chost_chain ne) /\
       (forall payload n, ne_recv ne = RecvNotification payload -> parse_u64 payload = Some n ->
          wait_last_block_number ne = Ok n)).
Proof.
  intros ne; unfold wait_last_block_number; split.
  - intros [-> | ->]; [eauto|]; destruct (ne_connect_ok ne); simpl; eauto.
  - intros -> ->; cbn [negb]; repeat split.
    + intros ->; reflexivity.
    + intros ->; reflexivity.
    + intros p -> Hp; rewrite Hp; reflexivity.
    + intros p n -> Hp; rewrite Hp; reflexivity.
Qed.

(** ** C9 and C10: the fetch threshold *)

(** C9. Whenever a pass hands a threshold to the fetch, it is the height
    returned by the wait (notification or direct query) minus the
    finality delay, the height being at least the delay; in scenario C
    (wait timed out, direct query 205, delay 5) the threshold is 200. *)
Theorem C9_threshold_is_height_minus_delay :
  (forall (env : PassEnv) (store : Store) (t : Z),
     fetched_at (execute env store) = Some t ->
     exists h, wait_last_block_number (env_notify env) = Ok h /\
               block_delay_for_delegation env <= h /\
               t = h - block_delay_for_delegation env) /\
  (forall (env : PassEnv) (store : Store),
     env_notify env = scenario_c_notify -> block_delay_for_delegation env = 5 ->
     env_begin_ok env = true ->
     fetched_at (execute env store) = Some 200).
Proof.
  split.
  - intros env store t; unfold execute.
    destruct (wait_last_block_number (env_notify env)) as [h|m]; [|discriminate].
    unfold u64_sub_checked.
    destruct (block_delay_for_delegation env <=? h) eqn:Hle; [|discriminate].
    apply Z.leb_le in Hle.
    destruct (env_begin_ok env); [|discriminate]; cbn [negb].
    destruct (tx_check_ready_delegations _ _ _ _) as [[ready handled]|m].
    2:{ intros Ht; injection Ht as <-; eauto. }
    destruct (bool_decide (ready = []) && bool_decide (handled = [])).
    { destruct (commit env store store true); intros Ht; injection Ht as <-; eauto. }
    destruct (spawn_loop ready) as [sp []]; cbn [negb];
      [|intros Ht; injection Ht as <-; eauto].
    destruct (join_loop _).
    + intros Ht; injection Ht as <-; eauto.
    + destruct (commit _ _ _ _); intros Ht; injection Ht as <-; eauto.
  - intros env store Hn Hd Hb; unfold execute; rewrite Hn, Hd, Hb; cbn.
    destruct (tx_check_ready_delegations _ _ _ _) as [[ready handled]|m]; [|reflexivity].
    destruct (bool_decide (ready = []) && bool_decide (handled = [])).
    { destruct (commit env store store true); reflexivity. }
    destruct (spawn_loop ready) as [sp []]; cbn [negb]; [|reflexivity].
    destruct (join_loop _); [reflexivity|destruct (commit _ _ _ _); reflexivity].
Qed.

(** C10. The threshold is [block_number - block_delay_for_delegation] on
    [u64], with no saturation: for a height at least the delay it is the
    exact difference; below the delay the checked subtraction panics, and
    so does the pass, while the wrapping one yields [h - d + 2^64], never
    0 (for a delay exceeding the height by at most 2^63, the [as i64] cast
    of the query turns it into a negative bound that selects no stored
    row). *)
Theorem C10_unguarded_u64_subtraction :
  forall h d : Z, 0 <= h < u64_max -> 0 <= d < u64_max ->
    (d <= h -> u64_sub_checked h d = Some (h - d) /\ u64_sub_wrapping h d = h - d) /\
    (h < d ->
       u64_sub_checked h d = None /\
       u64_sub_wrapping h d = h - d + u64_max /\ u64_sub_wrapping h d <> 0 /\
       (d - h <= i64_half -> forall store, Forall row_wf store ->
          delayed_sorted_delegation store (u64_sub_wrapping h d) = []) /\
       (forall env store, wait_last_block_number (env_notify env) = Ok h ->
          block_delay_for_delegation env = d -> ret (execute env store) = None)).
Proof.
  intros h d Hh Hd; unfold u64_max in *; split.
  - intros Hle; unfold u64_sub_checked, u64_sub_wrapping, u64_max.
    rewrite (proj2 (Z.leb_le _ _) Hle); split; [reflexivity|].
    apply Z.mod_small; lia.
  - intros Hlt.
    assert (Hw : u64_sub_wrapping h d = h - d + 2 ^ 64).
    { unfold u64_sub_wrapping, u64_max.
      rewrite <- (Z.mod_small (h - d + 2 ^ 64) (2 ^ 64)) by lia.
      rewrite <- Zplus_mod_idemp_r, Z_mod_same_full, Z.add_0_r; reflexivity. }
    unfold u64_max; split; [|split; [exact Hw|split; [lia|split]]].
    + unfold u64_sub_checked; rewrite (proj2 (Z.leb_gt _ _) Hlt); reflexivity.
    + intros Hsmall store Hwf; unfold delayed_sorted_delegation.
      rewrite filter_all_false; [reflexivity|].
      intros r Hr; eapply List.Forall_forall in Hwf; [|exact Hr].
      destruct Hwf as [Hb _]; apply Z.leb_gt.
      unfold u64_as_i64, i64_half, u64_max in *; rewrite Hw.
      rewrite (proj2 (Z.ltb_ge _ _)) by lia; lia.
    + intros env store Hwait Hdel; unfold execute; rewrite Hwait, Hdel.
      unfold u64_sub_checked; rewrite (proj2 (Z.leb_gt _ _) Hlt); reflexivity.
Qed.

(** * Witnesses *)

Lemma C1_witness :
  store_after (execute c4_env c4_store) = c4_store /\
  exists m, ret (execute c4_env c4_store) = Some (Err m).
Proof.
  destruct (C1_failure_rolls_back_all c4_env c4_store 100
              (map to_delegation_row c4_store) [[7]; [7]]
              (to_delegation_row (ex_row 100 1 [7])) "delegate txn failed")
    as (Hs & _ & Hr).
  - reflexivity.
  - simpl; lia.
  - reflexivity.
  - vm_compute; reflexivity.
  - intros l; apply Permutation_refl.
  - simpl; left; reflexivity.
  - reflexivity.
  - split; [exact Hs|apply Hr].
    intros d Hd; vm_compute in Hd; destruct Hd as [<- | [<- | []]]; reflexivity.
Defined.

Lemma C3_witness :
  send_transaction send_counter_too_low counters0 = (counters0, Ok tt) /\
  ret (execute c3_env c4_store) = Some (Ok true) /\
  store_after (execute c3_env c4_store) = clean_delegation c4_store [[7]; [7]].
Proof.
  split.
  - apply (proj1 C3_benign_rejection_success send_counter_too_low counters0
             (ErrorResp (Some UserDecryptionDelegationCounterTooLow))).
    + reflexivity.
    + right; reflexivity.
  - apply (proj2 C3_benign_rejection_success c3_env c4_store 100
             (map to_delegation_row c4_store) [[7]; [7]]).
    + reflexivity.
    + simpl; lia.
    + reflexivity.
    + vm_compute; reflexivity.
    + intros d _; exists (ErrorResp (Some UserDecryptionDelegationCounterTooLow));
        split; [reflexivity|right; reflexivity].
    + intros d Hd; vm_compute in Hd; destruct Hd as [<- | [<- | []]]; reflexivity.
    + intros l; apply Permutation_refl.
    + reflexivity.
    + reflexivity.
Defined.

Lemma C4_witness :
  aborted (execute c4_env c4_store) = [Ok tt] /\
  store_after (execute c4_env c4_store) = c4_store /\
  exists m, ret (execute c4_env c4_store) = Some (Err m).
Proof.
  apply (proj2 (C4_join_until_first_failure c4_env c4_store 100
                  (map to_delegation_row c4_store) [[7]; [7]]
                  eq_refl ltac:(simpl; lia) eq_refl ltac:(vm_compute; reflexivity)
                  ltac:(intros [H _]; discriminate)
                  ltac:(intros d Hd; vm_compute in Hd;
                        destruct Hd as [<- | [<- | []]]; reflexivity))
           [] "delegate txn failed"%string [Ok tt]).
  - vm_compute; reflexivity.
  - constructor.
Defined.

Lemma C5_witness :
  Sorted delegation_order_le (delayed_sorted_delegation [r101_1; r100_2; r100_1] 150) /\
  delayed_sorted_delegation [r101_1; r100_2; r100_1] 150 =
    map to_delegation_row [r100_1; r100_2; r101_1] /\
  delayed_sorted_delegation [r100_1] (u64_max - 1) = [].
Proof.
  split; [|split].
  - apply (proj1 C5_fetch_sorted_below_i64 [r101_1; r100_2; r100_1] 150).
    + unfold i64_half; lia.
    + repeat constructor; unfold i64_half; simpl; lia.
  - apply (proj1 (proj2 C5_fetch_sorted_below_i64) [r101_1; r100_2; r100_1] 150).
    + unfold i64_half; lia.
    + apply Permutation_rev.
  - apply (proj2 (proj2 C5_fetch_sorted_below_i64) [r100_1] (u64_max - 1)).
    + unfold i64_half, u64_max; lia.
    + repeat constructor; unfold i64_half; simpl; lia.
Defined.

Lemma C6_witness :
  ret (execute c6_env c4_store) = Some (Ok true) /\
  store_after (execute c6_env c4_store) = c4_store.
Proof.
  apply (C6_cleanup_failure_still_commits c6_env c4_store 100
           (map to_delegation_row c4_store) [[7]; [7]]).
  - reflexivity.
  - simpl; lia.
  - reflexivity.
  - vm_compute; reflexivity.
  - intros l; apply Permutation_refl.
  - intros d Hd; vm_compute in Hd; destruct Hd as [<- | [<- | []]]; reflexivity.
  - intros d Hd; vm_compute in Hd; destruct Hd as [<- | [<- | []]]; reflexivity.
  - reflexivity.
  - reflexivity.
Defined.

Lemma C7_witness :
  wait_last_block_number scenario_c_notify = Ok 205 /\
  wait_last_block_number (ex_notify "100") = Ok 100.
Proof.
  split.
  - apply (proj1 (proj2 (C7_height_wait_fallbacks scenario_c_notify) eq_refl eq_refl) eq_refl).
  - apply (proj2 (proj2 (proj2 (proj2 (C7_height_wait_fallbacks (ex_notify "100"))
                                  eq_refl eq_refl))) "100"%string 100 eq_refl).
    vm_compute; reflexivity.
Defined.

Lemma C8_witness :
  NoDup (oracle_calls (check_loop (ex_oracle [2]) (map to_delegation_row c2_store))) /\
  map fst (statuses (check_loop (ex_oracle [2]) (map to_delegation_row c2_store))) =
    map to_delegation_row c2_store.
Proof.
  destruct (C8_one_lookup_per_height (ex_oracle [2]) (map to_delegation_row c2_store))
    as (H1 & _ & H3 & _).
  split; [exact H1 | exact H3].
Defined.

Lemma C9_witness :
  fetched_at (execute scenario_c_env []) = Some 200 /\
  exists h, wait_last_block_number (env_notify scenario_c_env) = Ok h /\
            block_delay_for_delegation scenario_c_env <= h /\
            200 = h - block_delay_for_delegation scenario_c_env.
Proof.
  assert (H : fetched_at (execute scenario_c_env []) = Some 200)
    by (apply (proj2 C9_threshold_is_height_minus_delay scenario_c_env []);
        reflexivity).
  split; [exact H|].
  exact (proj1 C9_threshold_is_height_minus_delay scenario_c_env [] 200 H).
Defined.

Lemma C10_witness :
  u64_sub_checked 205 5 = Some 200 /\ u64_sub_checked 3 5 = None /\
  ret (execute {| env_notify := ex_notify "3"; block_delay_for_delegation := 5;
                  env_begin_ok := true; env_fetch_ok := true;
                  env_get_block_hash := fun _ => None; env_send := fun _ => send_succeeds;
                  env_complete := fun l => l; env_rollback_ok := true;
                  env_clean_ok := true; env_commit_ok := true |} []) = None.
Proof.
  split; [|split].
  - apply (proj1 (proj1 (C10_unguarded_u64_subtraction 205 5
                           ltac:(unfold u64_max; lia) ltac:(unfold u64_max; lia))
                  ltac:(lia))).
  - apply (proj1 (proj2 (C10_unguarded_u64_subtraction 3 5
                           ltac:(unfold u64_max; lia) ltac:(unfold u64_max; lia))
                  ltac:(lia))).
  - apply (proj2 (proj2 (proj2 (proj2 (proj2 (C10_unguarded_u64_subtraction 3 5
                           ltac:(unfold u64_max; lia) ltac:(unfold u64_max; lia))
                  ltac:(lia))))) _ []); reflexivity.
Defined.

(** * Further properties *)

(** ** The classification loop *)

Section Loop.
Variable g : BlockOracle.

Lemma check_step_outputs (s : CheckState) (d : DelegationRow) :
  exists st,
    statuses (check_step g s d) = statuses s ++ [(d, st)] /\
    stable_delegations (check_step g s d) =
      stable_delegations s ++ (if is_stable st then [d] else []) /\
    handled_block_delegation (check_step g s d) =
      handled_block_delegation s ++
        (if is_unkown st then [] else [block_hash d]) /\
    nb_unsure_delegations (check_step g s d) =
      (nb_unsure_delegations s + if is_unkown st then 1 else 0)%nat /\
    unsure_block (check_step g s d) =
      unsure_block s ++
        (match blocks_status s !! block_number d with
         | Some _ => []
         | None => match g (block_number d) with None => [block_number d] | Some _ => [] end
         end) /\
    (blocks_status s !! block_number d = None -> st = get_status g d).
Proof.
  unfold check_step, get_status.
  destruct (blocks_status s !! block_number d) as [st|] eqn:E.
  - exists st; destruct st; simpl; rewrite ?app_nil_r, ?Nat.add_0_r, ?Nat.add_1_r; repeat split; discriminate.
  - destruct (g (block_number d)) as [hh|] eqn:G;
      [destruct (bool_decide (block_hash d = hh))|]; simpl;
      (eexists; split; [reflexivity|]); simpl;
      rewrite ?app_nil_r, ?Nat.add_0_r, ?Nat.add_1_r; repeat split; reflexivity.
Qed.
End Loop.

Lemma loop_rel_init (g : BlockOracle) : loop_rel g check_init.
Proof.
  repeat split; simpl; auto.
  intros x v H; rewrite lookup_empty in H; discriminate.
Qed.

Lemma loop_rel_step (g : BlockOracle) (s : CheckState) (d : DelegationRow) :
  loop_rel g s -> loop_rel g (check_step g s d).
Proof.
  intros (H1 & H2 & H3 & H4 & H5).
  destruct (check_step_outputs g s d) as (st & Hs & Hst & Hh & Hn & Hu & Hget).
  destruct (check_step_cases g s d) as (st' & Hs' & Hc).
  rewrite Hs in Hs'; apply app_inj_tail in Hs' as [_ Heq]; injection Heq as <-.
  unfold loop_rel; rewrite Hs, Hst, Hh, Hn, Hu, H1, H2, H3, H4.
  rewrite !List.filter_app, !map_app, !length_app.
  split; [destruct st; reflexivity|].
  split; [destruct st; reflexivity|].
  split; [destruct st; simpl; lia|].
  destruct Hc as [(E & Hb & Hcalls) | (E & Hb & Hcalls)]; rewrite Hb, Hcalls, ?E.
  - split; [rewrite app_nil_r; reflexivity|].
    intros x v Hx; destruct (H5 x v Hx) as (p & Hp & Hpx & Hv).
    exists p; split; [apply in_or_app; auto|auto].
  - split.
    + rewrite List.filter_app; simpl.
      destruct (g (block_number d)); reflexivity.
    + intros x v Hx.
      destruct (decide (block_number d = x)) as [<- | Hne].
      * rewrite lookup_insert_eq in Hx; injection Hx as <-.
        exists (d, st); split; [apply in_or_app; right; left; auto|split; auto].
      * rewrite lookup_insert_ne in Hx by auto.
        destruct (H5 x v Hx) as (p & Hp & Hpx & Hv).
        exists p; split; [apply in_or_app; auto|auto].
Qed.

Lemma loop_rel_fold (g : BlockOracle) (ds : list DelegationRow) (s : CheckState) :
  loop_rel g s -> loop_rel g (fold_left (check_step g) ds s).
Proof.
  revert s; induction ds as [|d ds IH]; intros s Hs; simpl; auto.
  apply IH, loop_rel_step, Hs.
Qed.

Lemma check_loop_rel (g : BlockOracle) (ds : list DelegationRow) :
  loop_rel g (check_loop g ds) /\ memo_inv (check_loop g ds) /\
  map fst (statuses (check_loop g ds)) = ds.
Proof.
  unfold check_loop.
  destruct (check_fold_spec g ds check_init memo_inv_init) as [Hm Hmap].
  split; [apply loop_rel_fold, loop_rel_init|split; auto].
Qed.

(** X1. The classification loop submits exactly the fetched records it
    classified Stable, in fetch order, and marks for deletion the anchoring
    hashes of exactly the records it did not classify Unknown (Stable or
    Dismissed), in fetch order. *)
Theorem X1_loop_outputs_follow_statuses :
  forall (g : BlockOracle) (ds : list DelegationRow),
    let s := check_loop g ds in
    map fst (statuses s) = ds /\
    stable_delegations s = map fst (List.filter (fun p => is_stable p.2) (statuses s)) /\
    handled_block_delegation s =
      map (fun p => block_hash p.1) (List.filter (fun p => negb (is_unkown p.2)) (statuses s)).
Proof.
  intros g ds s; destruct (check_loop_rel g ds) as ((H1 & H2 & _) & _ & H3); auto.
Qed.

(** X2. The counts of the loop add up: the number of fetched records is
    the number of Stable records plus [nb_unsure_delegations] plus the
    number of Dismissed records, so the [usize] subtraction computing
    [nb_dismissed_delegations] never underflows and yields the number of
    Dismissed records. *)
Theorem X2_dismissed_count_no_underflow :
  forall (g : BlockOracle) (ds : list DelegationRow),
    let s := check_loop g ds in
    length ds = (length (stable_delegations s) + nb_unsure_delegations s +
                 length (List.filter (fun p => is_dismissed p.2) (statuses s)))%nat /\
    (length (stable_delegations s) + nb_unsure_delegations s <= length ds)%nat.
Proof.
  intros g ds s; destruct (check_loop_rel g ds) as ((H1 & _ & H3 & _) & _ & Hmap).
  fold s in H1, H3, Hmap.
  rewrite H1, H3, length_map.
  assert (Hl : forall l : list (DelegationRow * BlockStatus),
    length l = (length (List.filter (fun p => is_stable p.2) l) +
                length (List.filter (fun p => is_unkown p.2) l) +
                length (List.filter (fun p => is_dismissed p.2) l))%nat).
  { induction l as [|[d st] l IH]; simpl; auto; destruct st; simpl; lia. }
  rewrite <- Hmap, length_map, <- Hl; split; [reflexivity|].
  specialize (Hl (statuses s)); lia.
Qed.

(** X3. [unsure_block] lists, without repetition and in query order, exactly
    the heights whose [get_block_hash] lookup failed. *)
Theorem X3_unsure_blocks_are_failed_lookups :
  forall (g : BlockOracle) (ds : list DelegationRow),
    let s := check_loop g ds in
    unsure_block s =
      List.filter (fun x => match g x with None => true | Some _ => false end) (oracle_calls s) /\
    NoDup (unsure_block s) /\
    (forall x, In x (unsure_block s) <-> (exists d, In d ds /\ block_number d = x) /\ g x = None).
Proof.
  intros g ds s; destruct (check_loop_rel g ds) as ((_ & _ & _ & H4 & _) & Hm & Hmap).
  destruct Hm as (Hnd & Hdom & Hst & Hcall); fold s in H4, Hnd, Hdom, Hst, Hcall, Hmap.
  split; [exact H4|split].
  - rewrite H4; apply NoDup_ListNoDup, List.NoDup_filter, NoDup_ListNoDup; exact Hnd.
  - intros x; rewrite H4, filter_In; split.
    + intros [Hx Hg]; split; [|destruct (g x); congruence].
      destruct (Hcall x Hx) as (p & Hp & <-); exists p.1; split; auto.
      rewrite <- Hmap; apply in_map; auto.
    + intros [(d & Hd & <-) Hg]; rewrite Hg; split; auto.
      apply Hdom.
      rewrite <- Hmap in Hd; apply in_map_iff in Hd as (p & <- & Hp).
      rewrite (Hst p Hp); eauto.
Qed.

(** X4. When the fetched records at each height all carry the same
    recorded hash, the cache changes nothing: every record gets the status
    of its own lookup, Stable exactly when the live hash equals its
    recorded hash, Dismissed when it differs, and Unknown when the lookup
    fails. *)
Theorem X4_consistent_heights_classified_per_record :
  forall (g : BlockOracle) (ds : list DelegationRow),
    (forall d1 d2, In d1 ds -> In d2 ds -> block_number d1 = block_number d2 ->
       block_hash d1 = block_hash d2) ->
    statuses (check_loop g ds) = map (fun d => (d, get_status g d)) ds.
Proof.
  intros g ds Hcons.
  destruct (check_loop_rel g ds) as ((_ & _ & _ & _ & H5) & (_ & _ & Hst & _) & Hmap).
  set (S := statuses (check_loop g ds)) in *.
  assert (Hall : forall p, In p S -> p.2 = get_status g p.1).
  { intros p Hp.
    destruct (H5 _ _ (Hst p Hp)) as (q & Hq & Hqb & ->).
    assert (Hin : forall r, In r S -> In r.1 ds)
      by (intros r Hr; rewrite <- Hmap; apply in_map; auto).
    unfold get_status; rewrite <- Hqb.
    rewrite (Hcons q.1 p.1 (Hin q Hq) (Hin p Hp) Hqb); reflexivity. }
  rewrite <- Hmap; clear Hmap H5 Hst.
  induction S as [|[d st] S IH]; simpl; auto.
  f_equal; [f_equal; apply (Hall (d, st)); left; auto|].
  apply IH; intros p Hp; apply Hall; right; auto.
Qed.

(** ** The send path *)

(** X5. [send_transaction] moves the fail counter by one exactly when it
    returns an error, and the success counter by one exactly when the
    transaction was accepted and its receipt reports success; a benign
    rejection moves neither. *)
Theorem X5_send_counters :
  forall (se : SendEnv) (c : Counters),
    let '(c', r) := send_transaction se c in
    fail_counter c' = (fail_counter c + if is_ok r then 0 else 1)%nat /\
    success_counter c' =
      (success_counter c +
       match se_send_error se, se_receipt se with None, Some true => 1 | _, _ => 0 end)%nat.
Proof.
  intros [[e|] rc] [cs cf]; unfold send_transaction; simpl.
  - destruct (non_applicable_delegation e); [simpl; split; lia|].
    destruct e as [| [|[]] | |]; destruct rc as [[|]|]; simpl; split; lia.
  - destruct rc as [[|]|]; simpl; split; lia.
Qed.

(** X6. [send_transaction] succeeds exactly when the send error decodes to
    one of the two benign contract errors, or when the transaction was
    sent and its receipt reports success: retryable transport errors,
    [BackendGone], local usage errors, any other send error, a failed
    receipt wait and a reverted transaction are all errors. *)
Theorem X6_send_ok_iff :
  forall (se : SendEnv) (c : Counters),
    is_ok (snd (send_transaction se c)) = true <->
    (exists e, se_send_error se = Some e /\ benign_rejection e) \/
    (se_send_error se = None /\ se_receipt se = Some true).
Proof.
  intros [[e|] [[|]|]] c; unfold send_transaction, benign_rejection; simpl;
    (split; [intros H|intros [(e' & He' & Hb) | [H1 H2]]]); try discriminate;
    try reflexivity; try (right; split; reflexivity);
    try (injection He' as <-; destruct Hb as [-> | ->]; reflexivity);
    destruct e as [[[]|] | [|[]] | |]; simpl in *; try discriminate;
    left; eexists; split; eauto.
Qed.

(** ** Cleanup *)

Lemma clean_delegation_filter (store : Store) (hs : list (list Z)) :
  clean_delegation store hs =
    List.filter (fun r => negb (bool_decide (db_block_hash r ∈ hs))) store.
Proof.
  destruct hs; [|reflexivity]; cbn [clean_delegation].
  symmetry; apply filter_all_true; intros r _.
  rewrite bool_decide_false; [reflexivity|apply not_elem_of_nil].
Qed.

Lemma clean_delegation_In (store : Store) (hs : list (list Z)) (r : DbRow) :
  In r (clean_delegation store hs) <-> In r store /\ ~ In (db_block_hash r) hs.
Proof.
  rewrite clean_delegation_filter, filter_In.
  rewrite negb_true_iff, bool_decide_eq_false, list_elem_of_In; tauto.
Qed.

Lemma filter_filter_and {A} (f g : A -> bool) (l : list A) :
  List.filter g (List.filter f l) = List.filter (fun x => f x && g x) l.
Proof.
  induction l as [|x l IH]; simpl; [reflexivity|].
  destruct (f x); simpl; [destruct (g x); simpl; [f_equal|]; auto | auto].
Qed.

(** X7. Two successive [DELETE]s are one [DELETE] of both hash lists;
    deleting the same hashes again changes nothing; and only the set of
    hashes matters, not their order or repetitions. *)
Theorem X7_clean_delegation_compose :
  forall (store : Store) (a b : list (list Z)),
    clean_delegation (clean_delegation store a) b = clean_delegation store (a ++ b) /\
    clean_delegation (clean_delegation store a) a = clean_delegation store a /\
    ((forall x, In x a <-> In x b) -> clean_delegation store a = clean_delegation store b).
Proof.
  assert (Hset : forall (store : Store) (a b : list (list Z)),
             (forall x, In x a <-> In x b) -> clean_delegation store a = clean_delegation store b).
  { intros store a b Hab; rewrite !clean_delegation_filter; apply List.filter_ext.
    intros r; f_equal; apply bool_decide_ext; rewrite !list_elem_of_In; apply Hab. }
  assert (Hcomp : forall (store : Store) (a b : list (list Z)),
             clean_delegation (clean_delegation store a) b = clean_delegation store (a ++ b)).
  { intros store a b; rewrite !clean_delegation_filter, filter_filter_and.
    apply List.filter_ext; intros r.
    destruct (decide (db_block_hash r ∈ a)) as [Ha|Ha];
      [rewrite (bool_decide_true _ Ha)|rewrite (bool_decide_false _ Ha)]; simpl;
      [rewrite bool_decide_true by (apply elem_of_app; auto); reflexivity|].
    destruct (decide (db_block_hash r ∈ b)) as [Hb|Hb];
      [rewrite (bool_decide_true _ Hb), bool_decide_true by (apply elem_of_app; auto)
      |rewrite (bool_decide_false _ Hb), bool_decide_false
         by (rewrite elem_of_app; intros [?|?]; contradiction)];
      reflexivity. }
  intros store a b; split; [apply Hcomp|split; [|apply Hset]].
  rewrite Hcomp; apply Hset; intros x; rewrite in_app_iff; tauto.
Qed.

(** ** Parsing the notification payload *)

Lemma digit_value_range (c : ascii) (d : Z) : digit_value c = Some d -> 0 <= d <= 9.
Proof.
  unfold digit_value; intros H.
  destruct ((48 <=? _) && (_ <=? 57)) eqn:E; [|discriminate].
  injection H as <-; apply andb_prop in E as [E1 E2]; apply Z.leb_le in E1, E2; lia.
Qed.

Lemma parse_digits_range (s : string) (a n : Z) :
  0 <= a < u64_max -> parse_digits a s = Some n -> 0 <= n < u64_max.
Proof.
  revert a; induction s as [|c s IH]; intros a Ha; simpl.
  - intros H; injection H as <-; exact Ha.
  - destruct (digit_value c) as [d|] eqn:Hd; [|discriminate].
    apply digit_value_range in Hd.
    destruct (a * 10 <? u64_max); [|discriminate].
    destruct (a * 10 + d <? u64_max) eqn:E; [|discriminate].
    apply Z.ltb_lt in E; apply IH; lia.
Qed.

Lemma parse_u64_range (s : string) (n : Z) : parse_u64 s = Some n -> 0 <= n < u64_max.
Proof.
  assert (H0 : 0 <= 0 < u64_max) by (unfold u64_max; lia).
  unfold parse_u64; intros H.
  destruct s as [|c rest]; [discriminate|].
  repeat match goal with
         | H : context [match ?x with _ => _ end] |- _ => destruct x
         end; try discriminate; eapply parse_digits_range; eauto.
Qed.

(** X8. The height wait returns either the answer of the direct height
    query, or a height notified on the channel, which is then a [u64]
    value parsed from the payload. *)
Theorem X8_wait_result_origin :
  forall (ne : NotifyEnv) (n : Z),
    wait_last_block_number ne = Ok n ->
    ne_get_block_number ne = Some n \/
    (0 <= n < u64_max /\
     exists payload, ne_recv ne = RecvNotification payload /\ parse_u64 payload = Some n).
Proof.
  intros ne n; unfold wait_last_block_number, from_chost_chain.
  destruct (ne_connect_ok ne), (ne_listen_ok ne); simpl; try discriminate.
  destruct (ne_recv ne) as [| |p].
  1,2: destruct (ne_get_block_number ne); intros H; [injection H as ->; auto|discriminate].
  destruct (parse_u64 p) as [m|] eqn:Hp.
  - intros H; injection H as <-; right; split; [eapply parse_u64_range; eauto|eauto].
  - destruct (ne_get_block_number ne); intros H; [injection H as ->; auto|discriminate].
Qed.

Lemma digit_value_ascii_digit (d : Z) : 0 <= d <= 9 -> digit_value (ascii_digit d) = Some d.
Proof.
  intros H.
  assert (d = 0 \/ d = 1 \/ d = 2 \/ d = 3 \/ d = 4 \/ d = 5 \/ d = 6 \/ d = 7 \/ d = 8 \/ d = 9)
    as Hd by lia.
  repeat destruct Hd as [-> | Hd]; [reflexivity..|subst; reflexivity].
Qed.

Lemma parse_digits_step (a d : Z) (acc : string) :
  0 <= d <= 9 -> 0 <= a -> a * 10 + d < u64_max ->
  parse_digits a (String (ascii_digit d) acc) = parse_digits (a * 10 + d) acc.
Proof.
  intros Hd Ha Hb; simpl; rewrite digit_value_ascii_digit by exact Hd.
  rewrite (proj2 (Z.ltb_lt _ _)) by lia.
  rewrite (proj2 (Z.ltb_lt _ _)) by lia; reflexivity.
Qed.

Lemma parse_to_dec (f : nat) (n a : Z) (acc : string) :
  0 <= n < 10 ^ Z.of_nat f -> 0 <= a ->
  a * 10 ^ Z.of_nat (dec_len f n) + n < u64_max ->
  parse_digits a (to_dec f n acc) = parse_digits (a * 10 ^ Z.of_nat (dec_len f n) + n) acc.
Proof.
  revert n a acc; induction f as [|f IH]; intros n a acc Hn Ha Hb.
  - simpl in *; assert (n = 0) by lia; subst; f_equal; lia.
  - cbn [to_dec dec_len] in *.
    destruct (n <? 10) eqn:E.
    + apply Z.ltb_lt in E; change (Z.of_nat 1) with 1 in Hb |- *.
      rewrite Z.pow_1_r in Hb |- *; rewrite Z.mod_small by lia.
      rewrite parse_digits_step by lia; f_equal; lia.
    + apply Z.ltb_ge in E.
      set (k := dec_len f (n / 10)) in *.
      rewrite Nat2Z.inj_succ, Z.pow_succ_r in Hb |- * by lia.
      assert (Hdm : n = 10 * (n / 10) + n mod 10) by (apply Z.div_mod; lia).
      assert (Hm : 0 <= n mod 10 < 10) by (apply Z.mod_pos_bound; lia).
      assert (Hp : 0 < 10 ^ Z.of_nat k) by (apply Z.pow_pos_nonneg; lia).
      assert (Hq : 0 <= n / 10 < 10 ^ Z.of_nat f).
      { split; [apply Z.div_pos; lia|].
        rewrite Nat2Z.inj_succ, Z.pow_succ_r in Hn by lia.
        apply Z.div_lt_upper_bound; lia. }
      assert (HX : a * (10 * 10 ^ Z.of_nat k) = 10 * (a * 10 ^ Z.of_nat k)) by ring.
      assert (HX0 : 0 <= a * 10 ^ Z.of_nat k) by (apply Z.mul_nonneg_nonneg; lia).
      rewrite HX in Hb |- *.
      set (X := a * 10 ^ Z.of_nat k) in *.
      rewrite IH; [|exact Hq|exact Ha|fold k X; lia].
      fold k X.
      rewrite parse_digits_step; [|lia|lia|lia].
      f_equal; lia.
Qed.

Lemma to_dec_head (f : nat) (n : Z) (acc : string) :
  exists d rest, 0 <= d <= 9 /\ to_dec (S f) n acc = String (ascii_digit d) rest.
Proof.
  revert n acc; induction f as [|f IH]; intros n acc.
  - cbn [to_dec]; destruct (n <? 10);
      (exists (n mod 10); eexists; split; [pose proof (Z.mod_pos_bound n 10); lia|reflexivity]).
  - cbn [to_dec]; destruct (n <? 10).
    + exists (n mod 10); eexists; split; [pose proof (Z.mod_pos_bound n 10); lia|reflexivity].
    + apply IH.
Qed.

Lemma parse_u64_digit_head (d : Z) (rest : string) :
  0 <= d <= 9 ->
  parse_u64 (String (ascii_digit d) rest) = parse_digits 0 (String (ascii_digit d) rest).
Proof.
  intros H.
  assert (d = 0 \/ d = 1 \/ d = 2 \/ d = 3 \/ d = 4 \/ d = 5 \/ d = 6 \/ d = 7 \/ d = 8 \/ d = 9)
    as Hd by lia.
  repeat destruct Hd as [-> | Hd]; [reflexivity..|subst; reflexivity].
Qed.

(** X9. Round trip: the decimal rendering of any [u64] height parses back
    to that height, so a well-formed notification carrying it makes the
    wait return it without querying the host chain. *)
Theorem X9_decimal_roundtrip :
  forall n : Z, 0 <= n < u64_max ->
    parse_u64 (u64_to_string n) = Some n /\
    (forall ne, ne_connect_ok ne = true -> ne_listen_ok ne = true ->
       ne_recv ne = RecvNotification (u64_to_string n) ->
       wait_last_block_number ne = Ok n).
Proof.
  intros n Hn.
  assert (Hp : parse_u64 (u64_to_string n) = Some n).
  { unfold u64_to_string.
    destruct (to_dec_head 19 n EmptyString) as (d & rest & Hd & Heq).
    rewrite Heq, parse_u64_digit_head, <- Heq by exact Hd.
    rewrite parse_to_dec; simpl; unfold u64_max in *; try lia.
    f_equal; lia. }
  split; [exact Hp|].
  intros ne Hc Hl Hr; unfold wait_last_block_number; rewrite Hc, Hl, Hr, Hp; reflexivity.
Qed.

(** ** Whole passes *)

(** A pass publishes either the store it started from, or, after a fully
    successful round, the store cleaned of the hashes handled by the
    classification of the records fetched at its threshold. *)
Lemma execute_store_cases (env : PassEnv) (store : Store) :
  store_after (execute env store) = store \/
  exists t, fetched_at (execute env store) = Some t /\
    ret (execute env store) = Some (Ok true) /\
    store_after (execute env store) =
      clean_delegation store
        (handled_block_delegation
           (check_loop (env_get_block_hash env) (delayed_sorted_delegation store t))).
Proof.
  unfold execute.
  destruct (wait_last_block_number (env_notify env)) as [h|m]; [|left; reflexivity].
  destruct (u64_sub_checked h (block_delay_for_delegation env)) as [t|]; [|left; reflexivity].
  destruct (env_begin_ok env); [|left; reflexivity]; cbn [negb].
  unfold tx_check_ready_delegations.
  destruct (env_fetch_ok env); cbn [negb]; [|left; reflexivity].
  destruct (delayed_sorted_delegation store t) as [|d0 ds0] eqn:F.
  - cbn beta iota zeta; unfold commit; destruct (env_commit_ok env); left; reflexivity.
  - cbn beta iota zeta; rewrite <- F.
    destruct (_ && _); [unfold commit; destruct (env_commit_ok env); left; reflexivity|].
    destruct (spawn_loop _) as [sp []]; cbn [negb]; [|left; reflexivity].
    destruct (join_loop _); [left; reflexivity|].
    unfold commit; destruct (env_clean_ok env), (env_commit_ok env);
      try (left; reflexivity).
    right; exists t; repeat split.
Qed.

(** X10. A pass returns [Ok(true)], an error, or panics (on the threshold
    underflow or in [Address::from_slice]); it never returns [Ok(false)]. Whenever it does not return
    [Ok(true)], the store it leaves is the one it started from. *)
Theorem X10_failed_pass_leaves_store :
  forall (env : PassEnv) (store : Store),
    (ret (execute env store) = None \/ ret (execute env store) = Some (Ok true) \/
     exists m, ret (execute env store) = Some (Err m)) /\
    (ret (execute env store) <> Some (Ok true) -> store_after (execute env store) = store).
Proof.
  intros env store; split.
  - unfold execute.
    destruct (wait_last_block_number (env_notify env)) as [h|m]; [|simpl; eauto].
    destruct (u64_sub_checked h (block_delay_for_delegation env)) as [t|]; [|simpl; auto].
    destruct (env_begin_ok env); cbn [negb]; [|simpl; eauto].
    unfold rollback_then_bail, commit.
    destruct (env_rollback_ok env), (env_commit_ok env);
      destruct (tx_check_ready_delegations _ _ _ _) as [[ready handled]|m];
      cbn beta iota zeta; eauto;
      destruct (_ && _); cbn beta iota zeta; eauto;
      destruct (spawn_loop _) as [sp []]; cbn [negb]; eauto;
      destruct (join_loop _); cbn beta iota zeta; eauto.
  - intros Hne; destruct (execute_store_cases env store) as [H | (t & _ & Hr & _)]; auto.
    contradiction.
Qed.

(** X11. A pass never adds a record to the store. A record it removes was
    removed by a pass returning [Ok(true)], and its anchoring hash is the
    hash of a record fetched at the pass's threshold that the
    classification did not leave Unknown. *)
Theorem X11_removed_rows_were_handled :
  forall (env : PassEnv) (store : Store) (r : DbRow),
    (In r (store_after (execute env store)) -> In r store) /\
    (In r store -> ~ In r (store_after (execute env store)) ->
       ret (execute env store) = Some (Ok true) /\
       exists t d st,
         fetched_at (execute env store) = Some t /\
         In d (delayed_sorted_delegation store t) /\
         In (d, st) (statuses (check_loop (env_get_block_hash env)
                                 (delayed_sorted_delegation store t))) /\
         st <> Unkown /\ block_hash d = db_block_hash r).
Proof.
  intros env store r; split.
  - intros Hin; destruct (execute_store_cases env store) as [H | (t & _ & _ & H)];
      rewrite H in Hin; auto.
    apply (proj1 (clean_delegation_In _ _ r)) in Hin; tauto.
  - intros Hin Hout.
    destruct (execute_store_cases env store) as [H | (t & Ht & Hr & H)];
      [rewrite H in Hout; contradiction|].
    split; [exact Hr|]; exists t.
    rewrite H in Hout.
    assert (Hh : In (db_block_hash r)
                   (handled_block_delegation (check_loop (env_get_block_hash env)
                      (delayed_sorted_delegation store t)))).
    { destruct (In_dec (List.list_eq_dec Z.eq_dec) (db_block_hash r)
                  (handled_block_delegation (check_loop (env_get_block_hash env)
                     (delayed_sorted_delegation store t)))) as [Hy|Hn]; auto.
      exfalso; apply Hout, (proj2 (clean_delegation_In _ _ r)); auto. }
    destruct (check_loop_rel (env_get_block_hash env) (delayed_sorted_delegation store t))
      as ((_ & H2 & _) & _ & Hmap).
    rewrite H2 in Hh; apply in_map_iff in Hh as ([d st] & Hb & Hp).
    apply filter_In in Hp as [Hp Hst]; simpl in Hb, Hst.
    exists d, st; repeat split; auto.
    + rewrite <- Hmap; apply (in_map fst _ (d, st)); exact Hp.
    + intros ->; discriminate.
Qed.

(** X12. A pass in which the lookup of every fetched record's height fails
    (in particular one that fetches nothing) spawns no submission, deletes
    nothing, and commits as a no-op returning [Ok(true)]. *)
Theorem X12_all_unknown_is_noop_commit :
  forall (env : PassEnv) (store : Store) (h : Z),
    wait_last_block_number (env_notify env) = Ok h ->
    block_delay_for_delegation env <= h ->
    env_begin_ok env = true -> env_fetch_ok env = true -> env_commit_ok env = true ->
    (forall d, In d (delayed_sorted_delegation store (h - block_delay_for_delegation env)) ->
       env_get_block_hash env (block_number d) = None) ->
    ret (execute env store) = Some (Ok true) /\ spawned (execute env store) = [] /\
    store_after (execute env store) = store.
Proof.
  intros env store h Hw Hle Hb Hf Hc Hnone.
  set (t := h - block_delay_for_delegation env) in *.
  set (g := env_get_block_hash env) in *.
  assert (Htx : tx_check_ready_delegations g (env_fetch_ok env) store t = Ok ([], [])).
  { unfold tx_check_ready_delegations; rewrite Hf; cbn [negb].
    destruct (delayed_sorted_delegation store t) as [|d0 ds0] eqn:F; [reflexivity|].
    cbn beta iota zeta; rewrite <- F.
    destruct (check_loop_rel g (delayed_sorted_delegation store t))
      as ((H1 & H2 & _ & _ & H5) & (_ & _ & Hst & _) & Hmap).
    assert (Hunk : forall p, In p (statuses (check_loop g (delayed_sorted_delegation store t))) ->
                             p.2 = Unkown).
    { intros p Hp; destruct (H5 _ _ (Hst p Hp)) as (q & Hq & Hqb & ->).
      unfold get_status; rewrite Hnone; [reflexivity|].
      rewrite <- F, <- Hmap; apply in_map; exact Hq. }
    rewrite H1, H2; f_equal; f_equal.
    - rewrite filter_all_false; [reflexivity|].
      intros p Hp; rewrite (Hunk p Hp); reflexivity.
    - rewrite filter_all_false; [reflexivity|].
      intros p Hp; rewrite (Hunk p Hp); reflexivity. }
  unfold execute; rewrite Hw; unfold u64_sub_checked.
  rewrite (proj2 (Z.leb_le _ _) Hle), Hb; cbn [negb].
  fold t g; rewrite Htx; cbn beta iota zeta.
  unfold commit; rewrite Hc; repeat split.
Qed.

Lemma spawn_loop_stops (ready : list DelegationRow) :
  snd (spawn_loop ready) = false ->
  exists d0 rest, ready = fst (spawn_loop ready) ++ d0 :: rest /\ addresses_ok d0 = false.
Proof.
  induction ready as [|d ready IH]; simpl; [discriminate|].
  destruct (addresses_ok d) eqn:E.
  - destruct (spawn_loop ready) as [sp fin] eqn:Hsp; simpl in *.
    intros Hfin; destruct (IH Hfin) as (d0 & rest & Hr & Hd0).
    exists d0, rest; rewrite Hr at 1; auto.
  - intros _; exists d, ready; auto.
Qed.

Lemma spawn_loop_spawned_ok (ready : list DelegationRow) (d : DelegationRow) :
  In d (fst (spawn_loop ready)) -> addresses_ok d = true.
Proof.
  induction ready as [|d0 ready IH]; simpl; [tauto|].
  destruct (addresses_ok d0) eqn:E; [|simpl; tauto].
  destruct (spawn_loop ready) as [sp fin]; simpl in *.
  intros [<- | Hd]; auto.
Qed.

Lemma spawn_loop_not_finished (ready : list DelegationRow) (d : DelegationRow) :
  In d ready -> addresses_ok d = false -> snd (spawn_loop ready) = false.
Proof.
  intros Hd Hbad; destruct (snd (spawn_loop ready)) eqn:Hfin; [|reflexivity].
  rewrite (spawn_loop_finished ready Hfin d Hd) in Hbad; discriminate.
Qed.

(** X13. If a ready record has an address that is not 20 bytes long, the
    pass panics in [Address::from_slice] while building its request: the
    records before the first such one have been spawned (and are aborted
    with the dropped [JoinSet]), that record and the ones after it are
    not, and the store is left as it was. *)
Theorem X13_short_address_panics :
  forall (env : PassEnv) (store : Store) (h : Z)
         (ready : list DelegationRow) (handled : list (list Z)) (d : DelegationRow),
    wait_last_block_number (env_notify env) = Ok h ->
    block_delay_for_delegation env <= h ->
    env_begin_ok env = true ->
    tx_check_ready_delegations (env_get_block_hash env) (env_fetch_ok env) store
      (h - block_delay_for_delegation env) = Ok (ready, handled) ->
    In d ready -> addresses_ok d = false ->
    ret (execute env store) = None /\ store_after (execute env store) = store /\
    aborted (execute env store) = map (task_result env) (spawned (execute env store)) /\
    (forall d', In d' (spawned (execute env store)) -> addresses_ok d' = true) /\
    exists d0 rest, ready = spawned (execute env store) ++ d0 :: rest /\
                    addresses_ok d0 = false.
Proof.
  intros env store h ready handled d Hw Hle Hb Htx Hd Hbad.
  assert (Hne : ~ (ready = [] /\ handled = [])) by (intros [-> _]; inversion Hd).
  pose proof (spawn_loop_not_finished ready d Hd Hbad) as Hfin.
  destruct (execute_spawn_panic env store h ready handled Hw Hle Hb Htx Hne Hfin)
    as (Hr & Hs & Hsp & Ha).
  rewrite Hsp; repeat split; auto.
  - intros d'; apply spawn_loop_spawned_ok.
  - apply spawn_loop_stops, Hfin.
Qed.

(** * Witnesses of the further properties *)

Lemma X3_witness :
  In 200 (unsure_block (check_loop (ex_oracle [2]) [to_delegation_row (ex_row 200 1 [3])])).
Proof.
  apply (proj2 (proj2 (proj2 (X3_unsure_blocks_are_failed_lookups (ex_oracle [2])
                                [to_delegation_row (ex_row 200 1 [3])])) 200)).
  split; [exists (to_delegation_row (ex_row 200 1 [3])); split; [left|]; reflexivity|].
  reflexivity.
Defined.

Lemma X4_witness :
  statuses (check_loop (ex_oracle [7]) (map to_delegation_row c4_store)) =
  map (fun d => (d, get_status (ex_oracle [7]) d)) (map to_delegation_row c4_store).
Proof.
  apply X4_consistent_heights_classified_per_record.
  intros d1 d2 H1 H2 _; simpl in H1, H2.
  destruct H1 as [<- | [<- | []]], H2 as [<- | [<- | []]]; reflexivity.
Defined.

Lemma X6_witness : is_ok (snd (send_transaction send_counter_too_low counters0)) = true.
Proof.
  apply (proj2 (X6_send_ok_iff send_counter_too_low counters0)).
  left; exists (ErrorResp (Some UserDecryptionDelegationCounterTooLow));
    split; [reflexivity|right; reflexivity].
Defined.

Lemma X7_witness : clean_delegation c2_store [[1]; [2]; [1]] = clean_delegation c2_store [[2]; [1]].
Proof.
  apply (proj2 (proj2 (X7_clean_delegation_compose c2_store [[1]; [2]; [1]] [[2]; [1]]))).
  intros x; simpl; tauto.
Defined.

Lemma X8_witness :
  ne_get_block_number scenario_c_notify = Some 205 \/
  (0 <= 205 < u64_max /\
   exists payload, ne_recv scenario_c_notify = RecvNotification payload /\
                   parse_u64 payload = Some 205).
Proof. apply X8_wait_result_origin; reflexivity. Defined.

Lemma X9_witness : parse_u64 (u64_to_string 205) = Some 205.
Proof. apply (proj1 (X9_decimal_roundtrip 205 ltac:(unfold u64_max; lia))). Defined.

Lemma X10_witness : store_after (execute c4_env c4_store) = c4_store.
Proof.
  apply (proj2 (X10_failed_pass_leaves_store c4_env c4_store)).
  vm_compute; discriminate.
Defined.

Lemma X11_witness :
  ret (execute c2_env c2_store) = Some (Ok true) /\
  exists t d st,
    fetched_at (execute c2_env c2_store) = Some t /\
    In d (delayed_sorted_delegation c2_store t) /\
    In (d, st) (statuses (check_loop (env_get_block_hash c2_env)
                            (delayed_sorted_delegation c2_store t))) /\
    st <> Unkown /\ block_hash d = db_block_hash (ex_row 100 2 [2]).
Proof.
  apply (proj2 (X11_removed_rows_were_handled c2_env c2_store (ex_row 100 2 [2]))).
  - right; left; reflexivity.
  - vm_compute; intros [].
Defined.

Lemma X12_witness :
  ret (execute x12_env c4_store) = Some (Ok true) /\ spawned (execute x12_env c4_store) = [] /\
  store_after (execute x12_env c4_store) = c4_store.
Proof.
  apply (X12_all_unknown_is_noop_commit x12_env c4_store 100).
  - reflexivity.
  - simpl; lia.
  - reflexivity.
  - reflexivity.
  - reflexivity.
  - intros d Hd; exact (eq_refl (@None (list Z))).
Defined.

Lemma X13_witness :
  ret (execute c4_env short_addr_store) = None /\
  store_after (execute c4_env short_addr_store) = short_addr_store /\
  aborted (execute c4_env short_addr_store) =
    map (task_result c4_env) (spawned (execute c4_env short_addr_store)) /\
  (forall d', In d' (spawned (execute c4_env short_addr_store)) -> addresses_ok d' = true) /\
  exists d0 rest, map to_delegation_row short_addr_store =
                    spawned (execute c4_env short_addr_store) ++ d0 :: rest /\
                  addresses_ok d0 = false.
Proof.
  apply (X13_short_address_panics c4_env short_addr_store 100
           (map to_delegation_row short_addr_store) [[7]; [7]]
           (to_delegation_row short_delegator_row)).
  - reflexivity.
  - simpl; lia.
  - reflexivity.
  - vm_compute; reflexivity.
  - right; left; reflexivity.
  - reflexivity.
Defined.
